(** * Experimental semivariograms and model fitting: [semivariogram.py]

    A shallow embedding of [src/semivariogram.py] and the properties of its
    pairwise geometry ([distang]), its lag binner ([semivario]), its model
    library ([expvar], [sphvar], [gauvar] and their range functions) and
    its driver ([semivariogram]).

    Numbers.  The program computes on IEEE doubles.  The file embeds it
    twice.

    - On real numbers: a double is a real number of [R] and every operation
      is exact (no rounding, no overflow, no signed zero).  The one float
      that is not a number, [nan], is [None] in an array of [option R];
      [+inf] appears only as an uncertainty score and is the constructor
      [Inf] of [score].  Comparisons are the booleans [Rltb] and [Reqb],
      decided through [Rlt_dec] and [Req_dec_T].  This embedding carries
      the driver, the model library, the fitting part and the properties
      of the binner that no rounding decides.  It leaves out what only
      doubles show: a quotient by zero (a range parameter [a0 = 0], a
      fitted parameter equal to 0) is not a number or infinite there.

    - On doubles, in the module [Doubles]: [distang], [semivario] and the
      remapping of the angles on the binary64 numbers [float], whose
      operations round as the machine does and which have [nan],
      infinities and two zeros.  This embedding carries what rounding or
      the sign of a zero decides: the edges [s*L] of the lags and the
      angle [-pi].

    Arrays are lists, read with [nth] and written with [upd].  The driver
    checks that [x], [y] and [v] have one shape before any array is read,
    and every index the loops produce is in range. *)

From Stdlib Require Import PrimFloat FloatClass.
From Stdlib Require Uint63.
From Stdlib Require Import String.
From Stdlib Require Import Reals Lra Lia List Arith Bool Sorted.
Import ListNotations.
Open Scope R_scope.

(** ** Numbers, arrays and ranges *)

Definition Rltb (a b : R) : bool := if Rlt_dec a b then true else false.
Definition Reqb (a b : R) : bool := if Req_dec_T a b then true else false.

(** [range a b] is Python's [range(a,b)]: empty when [b <= a]. *)
Definition range (a b : nat) : list nat := seq a (b - a).

(** [l[k] = v] for an index in range. *)
Fixpoint upd {A : Type} (l : list A) (k : nat) (v : A) : list A :=
  match l, k with
  | [], _ => []
  | _ :: l', O => v :: l'
  | a :: l', S k' => a :: upd l' k' v
  end.

(** [np.zeros(m)]. *)
Definition zeros (m : nat) : list R := repeat 0 m.

Definition Rsum (l : list R) : R := fold_right Rplus 0 l.
Definition nsum (l : list nat) : nat := fold_right Nat.add 0%nat l.

(** [max(r)] of a non-empty array; on an empty one Python raises. *)
Definition max_list (l : list R) : option R :=
  match l with
  | [] => None
  | a :: l' => Some (fold_left Rmax l' a)
  end.

(** [np.deg2rad]. *)
Definition deg2rad (d : R) : R := d * (PI / 180).

(** [np.arctan2(dy, dx)] on reals: the angle of the vector [(dx, dy)], in
    radians, in the range (-PI, PI]. *)
Definition arctan2 (dy dx : R) : R :=
  if Rltb 0 dx then atan (dy / dx)
  else if Rltb dx 0 then
    (if Rltb dy 0 then atan (dy / dx) - PI else atan (dy / dx) + PI)
  else if Rltb 0 dy then PI / 2
  else if Rltb dy 0 then - (PI / 2)
  else 0.

(** ** Exceptions *)

Inductive exn : Type :=
| TypeError (msg : string)
| NameError (msg : string)
| ValueError (msg : string)
| AttributeError
| RuntimeError (msg : string).

Inductive result (A : Type) : Type :=
| Ok (a : A)
| Raise (e : exn).
Arguments Ok {A} a.
Arguments Raise {A} e.

Definition bind {A B : Type} (m : result A) (f : A -> result B) : result B :=
  match m with
  | Ok a => f a
  | Raise e => Raise e
  end.

Notation "x <- m ;; k" := (bind m (fun x => k))
  (at level 61, m at next level, right associativity).
Notation "' pat <- m ;; k" := (bind m (fun x => let 'pat := x in k))
  (at level 61, pat pattern, m at next level, right associativity).

(** ** Pairwise geometry: [distang] *)

(** The body of the inner loop: the state is the two arrays and the
    running index [k]. *)
Definition distang_body (x y : list R) (o : nat)
    (st : list R * list R * nat) (p : nat) : list R * list R * nat :=
  let '(t, r, k) := st in
  let dx := nth p x 0 - nth o x 0 in
  let dy := nth p y 0 - nth o y 0 in
  (upd t k (arctan2 dy dx), upd r k (sqrt (dx ^ 2 + dy ^ 2)), S k).

Definition distang_loops (x y : list R) (n : nat)
    (st : list R * list R * nat) : list R * list R * nat :=
  fold_left
    (fun st o => fold_left (distang_body x y o) (range (o + 1) n) st)
    (range 0 (n - 1)) st.

(** [distang(x,y)]: returns [(r, t, xr, n)]. *)
Definition distang (x y : list R) : result (list R * list R * R * nat) :=
  let n := length x in
  let t := zeros (n * (n - 1) / 2) in
  let r := zeros (n * (n - 1) / 2) in
  let '(t, r, _) := distang_loops x y n (t, r, 0%nat) in
  match max_list r with
  | None => Raise (ValueError "max() arg is an empty sequence")
  | Some xr => Ok (r, t, xr, n)
  end.

(** ** The lag binner: [semivario] *)

(** The angular test the source writes three times (for the centre angle in
    both directional types and for the fold angle): [c] is the centre of
    the window in radians, [ta] the tolerance, [b] the buffer, [tk] the
    angle of the pair. *)
Definition window (c ta b tk : R) : bool :=
  if Rltb (deg2rad 180) (c + ta + b) then
    (Rltb (c - ta - b) tk && Rltb tk c)
    || (Rltb c tk && Rltb tk (deg2rad 180 + b))
    || (Rltb (- deg2rad 180 - b) tk && Rltb tk (- deg2rad 360 + (c + ta + b)))
  else if Rltb (c - ta - b) (- deg2rad 180) then
    (Rltb tk (c + ta + b) && Rltb c tk)
    || (Rltb tk c && Rltb (- deg2rad 180 - b) tk)
    || (Rltb tk (deg2rad 180 + b) && Rltb (deg2rad 360 + (c - ta - b)) tk)
  else
    Rltb (c - ta - b) tk && Rltb tk (c + ta + b).

(** [s*L < abs(rk) < (s+1)*L]. *)
Definition in_lag (L : R) (s : nat) (rk : R) : bool :=
  Rltb (INR s * L) (Rabs rk) && Rltb (Rabs rk) (INR (s + 1) * L).

(** [g[s] += d; q += 1]. *)
Definition accum (s : nat) (d : R) (gq : list (option R) * nat)
    : list (option R) * nat :=
  let '(g, q) := gq in
  (upd g s (option_map (fun a => a + d) (nth s g None)), S q).

(** The fold angle of the directional type. *)
Definition fold_angle (di : R) : R :=
  if Rltb (deg2rad di) 0 then deg2rad (di + 180) else deg2rad (di - 180).

(** What one pair does to [g[s]] and [q] once its distance is in lag [s]:
    the three [if type == ...] blocks in sequence. *)
Definition dispatch (type : string) (di td : R) (s : nat) (tk d : R)
    (gq : list (option R) * nat) : list (option R) * nat :=
  let a := deg2rad di in
  let ta := deg2rad td in
  let b := deg2rad (1 / 100) in
  let gq :=
    if String.eqb type "omnidirectional" then accum s d gq else gq in
  let gq :=
    if String.eqb type "directional" then
      let m := fold_angle di in
      let gq := if window a ta b tk then accum s d gq else gq in
      if window m ta b tk then accum s d gq else gq
    else gq in
  if String.eqb type "directional+orientational" then
    if window a ta b tk then accum s d gq else gq
  else gq.

(** The body of the innermost loop; the state is [(g, q, k)]. *)
Definition pair_step (r t z : list R) (L : R) (type : string) (di td : R)
    (s o : nat) (st : list (option R) * nat * nat) (p : nat)
    : list (option R) * nat * nat :=
  let '(g, q, k) := st in
  let '(g, q) :=
    if in_lag L s (nth k r 0) then
      dispatch type di td s (nth k t 0) ((nth p z 0 - nth o z 0) ^ 2) (g, q)
    else (g, q) in
  (g, q, S k).

(** One iteration of the loop over lags; the state is the arrays
    [(g, c)]. *)
Definition lag_step (r t : list R) (n : nat) (z : list R) (L : R)
    (type : string) (di td : R) (gc : list (option R) * list nat) (s : nat)
    : list (option R) * list nat :=
  let '(g, c) := gc in
  let g := upd g s (Some 0) in
  let c := upd c s 0%nat in
  let '(g, q, _) :=
    fold_left
      (fun st o =>
         fold_left (pair_step r t z L type di td s o) (range (o + 1) n) st)
      (range 0 (n - 1)) (g, 0%nat, 0%nat) in
  let g :=
    if Nat.eqb q 0 then upd g s None
    else upd g s (option_map (fun a => a / INR (q * 2)) (nth s g None)) in
  (g, upd c s q).

(** [np.delete(l, np.where(np.isnan(g)))]. *)
Fixpoint delete_nan {A : Type} (g : list (option R)) (l : list A) : list A :=
  match g, l with
  | Some _ :: g', a :: l' => a :: delete_nan g' l'
  | None :: g', _ :: l' => delete_nan g' l'
  | _, _ => []
  end.

(** The values of an array that are numbers. *)
Fixpoint numbers (g : list (option R)) : list R :=
  match g with
  | [] => []
  | Some a :: g' => a :: numbers g'
  | None :: g' => numbers g'
  end.

(** [semivario(r,t,xr,n,z,nL,di,td,type)]: returns [(h, g, c)].  The
    counts are kept as naturals (the source stores the integer [q] in a
    float array). *)
Definition semivario (r t : list R) (xr : R) (n : nat) (z : list R)
    (nL : nat) (di td : R) (type : string)
    : list R * list R * list nat :=
  let L := xr / INR nL in
  let g := repeat (Some 0) nL in
  let c := repeat 0%nat nL in
  let '(g, c) :=
    fold_left (lag_step r t n z L type di td) (range 0 nL) (g, c) in
  let h := map (fun s => INR s * L + L / 2) (range 0 nL) in
  (delete_nan g h, numbers g, delete_nan g c).

(** ** The model library

    The model functions divide by the range parameter [a0] and the range
    functions by [ce]: the definitions are the program's for [a0] and [ce]
    other than 0. *)

Definition Rleb (a b : R) : bool := if Rle_dec a b then true else false.

Definition expvar (h c0 ce a0 : R) : R :=
  c0 + ce * (1 - exp (- Rabs h / a0)).

Definition exprange (sill c0 ce a0 : R) : R :=
  - ln (- (sill * (95 / 100) - c0) / ce + 1) * a0.

Definition sphvar (h c0 ce a0 : R) : R :=
  if Rleb 0 (Rabs h) && Rleb (Rabs h) a0 then
    c0 + ce * (3 / 2 * (Rabs h / a0) - 1 / 2 * (Rabs h / a0) ^ 3)
  else c0 + ce.

Definition sphrange (sill c0 ce a0 : R) : R := a0.

Definition gauvar (h c0 ce a0 : R) : R :=
  c0 + ce * (1 - exp (- h ^ 2 / a0 ^ 2)).

Definition gaurange (sill c0 ce a0 : R) : R :=
  sqrt (- a0 ^ 2 * ln (- (sill * (95 / 100) - c0) / ce + 1)).

(** ** Fitting *)

(** An uncertainty score: a number or [float('inf')]. *)
Inductive score : Type :=
| Fin (v : R)
| Inf.

(** The second value [curve_fit] returns: a matrix, or an object that is
    not an array (a bare float), on which [.diagonal()] raises
    [AttributeError]. *)
Inductive cov : Type :=
| CovMatrix (m : list (list R))
| CovScalar (s : score).

(** What a call of [curve_fit] does: it returns [(popt, pcov)] or raises. *)
Inductive cf_outcome : Type :=
| CFReturn (popt : list R) (pcov : cov)
| CFRaise (e : exn).

Definition curve_fit_t : Type :=
  (R -> R -> R -> R -> R) -> list R -> list R -> list R -> cf_outcome.

(** The diagnostics the program prints. *)
Inductive diag : Type :=
| NoCurveFitWarning
| FitWarning (subtitle : string) (angle : R).

(** [pcovi.diagonal()]. *)
Fixpoint diag_from (k : nat) (m : list (list R)) : list R :=
  match m with
  | [] => []
  | row :: m' => nth k row 0 :: diag_from (S k) m'
  end.

Definition diagonal (c : cov) : result (list R) :=
  match c with
  | CovMatrix m => Ok (diag_from 0 m)
  | CovScalar _ => Raise AttributeError
  end.

(** Element-wise [a / b] of two arrays. *)
Fixpoint div_arrays (a b : list R) : list R :=
  match a, b with
  | u :: a', w :: b' => u / w :: div_arrays a' b'
  | _, _ => []
  end.

(** [np.mean] of a one-dimensional array of numbers. *)
Definition mean (l : list R) : R := Rsum l / INR (length l).

(** [np.mean(np.sqrt(pcovi.diagonal())/popti)], for parameters other than
    0 and variances that are not negative (see [score_defined]). *)
Definition fit_score (popti : list R) (dg : list R) : R :=
  mean (div_arrays (map sqrt dg) popti).

(** [np.mean] of a row of scores: infinite as soon as one score is. *)
Fixpoint finite_part (row : list score) : option (list R) :=
  match row with
  | [] => Some []
  | Fin v :: row' => option_map (cons v) (finite_part row')
  | Inf :: _ => None
  end.

Definition mean_score (row : list score) : score :=
  match finite_part row with
  | Some l => Fin (mean l)
  | None => Inf
  end.

(** [a < b] on scores. *)
Definition score_ltb (a b : score) : bool :=
  match a, b with
  | Fin u, Fin w => Rltb u w
  | Fin _, Inf => true
  | Inf, _ => false
  end.

(** [np.argmin]: the first index of a smallest entry. *)
Fixpoint argmin_from (best : nat) (bv : score) (k : nat) (l : list score)
    : nat :=
  match l with
  | [] => best
  | a :: l' =>
      if score_ltb a bv then argmin_from k a (S k) l'
      else argmin_from best bv (S k) l'
  end.

Definition argmin (l : list score) : nat :=
  match l with
  | [] => 0%nat
  | a :: l' => argmin_from 0%nat a 1%nat l'
  end.

(** [m[j,i] = v]. *)
Definition upd2 {A : Type} (m : list (list A)) (j i : nat) (v : A)
    : list (list A) :=
  upd m j (upd (nth j m []) i v).

Definition subtitles : list string :=
  ["Exponential Semivariogram Model"; "Spherical Semivariogram Model";
   "Gaussian Semivariogram Model"]%string.

(** The state of the fitting loops: [popt], [pcov], [vark] and what was
    printed. *)
Record fit_state : Type := mkFit {
  f_popt : list (list (list R));
  f_pcov : list (list cov);
  f_vark : list (list score);
  f_log : list diag
}.

(** The [except AttributeError] handler. *)
Definition fit_failed (di : list R) (j i : nat) (st : fit_state) : fit_state :=
  mkFit (f_popt st) (f_pcov st) (upd2 (f_vark st) j i Inf)
    (f_log st ++ [FitWarning (nth j subtitles EmptyString) (nth i di 0)]).

(** The body of the two fitting loops: the [try] block and its handler.
    Only [AttributeError] is handled; any other exception leaves the loops
    and the function. *)
Definition fit_step (curve_fit : curve_fit_t)
    (func : list (R -> R -> R -> R -> R)) (h g : list (list R))
    (di p0 : list R) (j i : nat) (st : fit_state) : result fit_state :=
  match curve_fit (nth j func expvar) (nth i h []) (nth i g []) p0 with
  | CFRaise AttributeError => Ok (fit_failed di j i st)
  | CFRaise e => Raise e
  | CFReturn popti pcovi =>
      let st :=
        mkFit (upd2 (f_popt st) j i popti) (upd2 (f_pcov st) j i pcovi)
          (f_vark st) (f_log st) in
      match diagonal pcovi with
      | Ok dg =>
          Ok (mkFit (f_popt st) (f_pcov st)
                (upd2 (f_vark st) j i (Fin (fit_score popti dg))) (f_log st))
      | Raise AttributeError => Ok (fit_failed di j i st)
      | Raise e => Raise e
      end
  end.

(** A [for] loop whose body may raise. *)
Fixpoint for_each {A S : Type} (l : list A) (body : A -> S -> result S)
    (st : S) : result S :=
  match l with
  | [] => Ok st
  | a :: l' => st' <- body a st ;; for_each l' body st'
  end.

Definition fit_loops (curve_fit : curve_fit_t)
    (func : list (R -> R -> R -> R -> R)) (h g : list (list R))
    (di p0 : list R) (st : fit_state) : result fit_state :=
  for_each (range 0 (length func))
    (fun j st =>
       for_each (range 0 (length di))
         (fun i st => fit_step curve_fit func h g di p0 j i st) st)
    st.

(** ** The driver: [semivariogram] *)

(** What the function returns: [(h, g, c)] when no model is fitted, and
    [(nugget, sill, range, vark, pcov, h, g, c)] otherwise. *)
Inductive output : Type :=
| Series (h g : list (list R)) (c : list (list nat))
| Fitted (nugget sill range_ : list R) (vark : list score) (pcov : list cov)
    (h g : list (list R)) (c : list (list nat)).

Definition b2R (b : bool) : R := if b then 1 else 0.

(** [np.less(di,0).any()]. *)
Definition any_negative (di : list R) : bool :=
  existsb (fun d => Rltb d 0) di.

(** [np.array(di).any()]: some element is not zero. *)
Definition array_any (di : list R) : bool :=
  existsb (fun d => negb (Reqb d 0)) di.

(** The four checks at the head of the function, in their order; the
    third compares the boolean [np.array(di).any()] with 180 and -180. *)
Definition validate (x y v di : list R) (td : R) (type : string)
    : result unit :=
  if negb (Nat.eqb (length x) (length y))
     || negb (Nat.eqb (length y) (length v)) then
    Raise (TypeError "x, y and v must have the same dimensions!")
  else if String.eqb type "directional" && any_negative di then
    Raise (TypeError "no negative directions in di are allowed")
  else if Rltb 180 (b2R (array_any di)) || Rltb (b2R (array_any di)) (-180)
  then Raise (TypeError "elements of di > 180 or < -180 are not allowed.")
  else if Rltb 180 td then Raise (TypeError "td > 180 is not allowed.")
  else Ok tt.

(** [t = np.where(t==-180, 180, t)]. *)
Definition remap_angles (t : list R) : list R :=
  map (fun a => if Reqb a (-180) then 180 else a) t.

(** The directions and tolerance the binner is run with. *)
Definition directions (type : string) (di : list R) (td : R)
    : result (list R * R) :=
  if String.eqb type "omnidirectional" then Ok ([0], 180)
  else if String.eqb type "directional" then Ok (di, td)
  else if String.eqb type "directional+orientational" then Ok (di, td)
  else Raise (NameError "wrong semivariogram type!").

(** The model functions and range functions of a model name; [None] is
    ['nomodel']. *)
Definition model_functions (model : string)
    : result (option (list (R -> R -> R -> R -> R)
                      * list (R -> R -> R -> R -> R))) :=
  if String.eqb model "exponential" then Ok (Some ([expvar], [exprange]))
  else if String.eqb model "spherical" then Ok (Some ([sphvar], [sphrange]))
  else if String.eqb model "gaussian" then Ok (Some ([gauvar], [gaurange]))
  else if String.eqb model "noidea" then
    Ok (Some ([expvar; sphvar; gauvar], [exprange; sphrange; gaurange]))
  else if String.eqb model "nomodel" then Ok None
  else Raise (NameError "wrong semivariogram model!").

(** The three series of one direction. *)
Definition series_of (r t : list R) (xr : R) (n : nat) (v : list R)
    (nL : nat) (td : R) (type : string) (i : R)
    : list R * list R * list nat :=
  semivario r t xr n v nL i td type.

(** The results taken from the fitted parameters of model [ind]. *)
Definition nuggets (popt : list (list (list R))) (ind : nat) : list R :=
  map (fun p => nth 0 p 0) (nth ind popt []).

Definition sills (popt : list (list (list R))) (ind : nat) : list R :=
  map (fun p => nth 0 p 0 + nth 1 p 0) (nth ind popt []).

Definition ranges (range_ : list (R -> R -> R -> R -> R))
    (popt : list (list (list R))) (ind : nat) : list R :=
  map (fun p =>
         nth ind range_ sphrange (nth 0 p 0 + nth 1 p 0) (nth 0 p 0)
           (nth 1 p 0) (nth 2 p 0))
    (nth ind popt []).

(** The part of the function under [if model != 'nomodel']: the fitting
    loops, the choice of the model and the results. *)
Definition fit_and_select (curve_fit : curve_fit_t)
    (func range_ : list (R -> R -> R -> R -> R)) (h g : list (list R))
    (c : list (list nat)) (di p0 : list R) (log : list diag)
    : result (output * list diag) :=
  let nf := length func in
  let nd := length di in
  let st0 :=
    mkFit (repeat (repeat (zeros 3) nd) nf)
      (repeat (repeat (CovScalar (Fin 0)) nd) nf)
      (repeat (repeat (Fin 0) nd) nf) log in
  st <- fit_loops curve_fit func h g di p0 st0 ;;
  let ind := argmin (map mean_score (f_vark st)) in
  Ok (Fitted (nuggets (f_popt st) ind) (sills (f_popt st) ind)
        (ranges range_ (f_popt st) ind) (nth ind (f_vark st) [])
        (nth ind (f_pcov st) []) h g c,
      f_log st).

Section Driver.

(** [scipy.optimize.curve_fit], when it can be imported. *)
Variable scipy : option curve_fit_t.

(** [semivariogram(x,y,v,nL,di,td,type,model,graph=False,p0=p0,
    runtimediag=False)]: the value returned or the exception raised, and
    the warnings printed on the way. *)
Definition semivariogram (x y v : list R) (nL : nat) (di : list R) (td : R)
    (type model : string) (p0 : list R) : result (output * list diag) :=
  _ <- validate x y v di td type ;;
  let '(model, log) :=
    match scipy with
    | Some _ => (model, [])
    | None => ("nomodel"%string, [NoCurveFitWarning])
    end in
  '(r, t, xr, n) <- distang x y ;;
  let t := remap_angles t in
  '(di, td) <- directions type di td ;;
  let hgc := map (series_of r t xr n v nL td type) di in
  let h := map (fun s => fst (fst s)) hgc in
  let g := map (fun s => snd (fst s)) hgc in
  let c := map snd hgc in
  fr <- model_functions model ;;
  match fr, scipy with
  | Some (func, range_), Some curve_fit =>
      fit_and_select curve_fit func range_ h g c di p0 log
  | _, _ => Ok (Series h g c, log)
  end.

End Driver.

(** ** Specification-side definitions

    These follow the words of the specification; the theorems below
    compare them with the functions above. *)

(** The pairs [(o,p)] with [o < p < n], by ascending [o] then ascending
    [p]. *)
Definition pairs (n : nat) : list (nat * nat) :=
  flat_map (fun o => map (pair o) (range (o + 1) n)) (range 0 (n - 1)).

(** The order of the enumeration: ascending [o], then ascending [p]. *)
Definition pair_lt (a b : nat * nat) : Prop :=
  (fst a < fst b)%nat \/ (fst a = fst b /\ (snd a < snd b)%nat).

(** The distance between the points [o] and [p]. *)
Definition dist (x y : list R) (op : nat * nat) : R :=
  sqrt ((nth (snd op) x 0 - nth (fst op) x 0) ^ 2
        + (nth (snd op) y 0 - nth (fst op) y 0) ^ 2).

(** The angle of the vector from [o] to [p]. *)
Definition angle (x y : list R) (op : nat * nat) : R :=
  arctan2 (nth (snd op) y 0 - nth (fst op) y 0)
          (nth (snd op) x 0 - nth (fst op) x 0).

(** The squared difference of the values at [o] and [p]. *)
Definition sqdiff (v : list R) (op : nat * nat) : R :=
  (nth (snd op) v 0 - nth (fst op) v 0) ^ 2.

(** [d] is strictly inside the open interval [(lo, hi)]. *)
Definition strictly_inside (lo hi d : R) : bool := Rltb lo d && Rltb d hi.

Section OmnidirectionalSpec.

Variables (x y v : list R) (L : R).

(** The pairs assigned to lag [s]: those whose distance is strictly
    inside [(s*L, (s+1)*L)]. *)
Definition lag_pairs (s : nat) : list (nat * nat) :=
  filter (fun op => strictly_inside (INR s * L) ((INR s + 1) * L)
                      (dist x y op))
    (pairs (length x)).

Definition lag_count (s : nat) : nat := length (lag_pairs s).

(** The sum of the squared differences over [2 * count]. *)
Definition lag_semivariance (s : nat) : R :=
  Rsum (map (sqdiff v) (lag_pairs s)) / (2 * INR (lag_count s)).

Definition lag_center (s : nat) : R := INR s * L + L / 2.

(** The lags with at least one pair, in increasing order. *)
Definition nonempty_lags (nL : nat) : list nat :=
  filter (fun s => negb (Nat.eqb (lag_count s) 0)) (seq 0 nL).

End OmnidirectionalSpec.

(** The closed forms of the model library, in the words of the
    specification. *)
Definition spec_expvar (h c0 ce a0 : R) : R :=
  c0 + ce * (1 - exp (- (Rabs h / a0))).

Definition spec_exprange (sill c0 ce a0 : R) : R :=
  a0 * - ln (1 - (95 / 100 * sill - c0) / ce).

Definition spec_sphvar (h c0 ce a0 : R) : R :=
  if Rleb (Rabs h) a0 then
    c0 + ce * (15 / 10 * (h / a0) - 5 / 10 * (h / a0) ^ 3)
  else c0 + ce.

Definition spec_gauvar (h c0 ce a0 : R) : R :=
  c0 + ce * (1 - exp (- (h ^ 2 / a0 ^ 2))).

Definition spec_gaurange (sill c0 ce a0 : R) : R :=
  a0 * sqrt (- ln (1 - (95 / 100 * sill - c0) / ce)).

(** ** Definitions used by the proofs *)

Definition b2n (b : bool) : nat := if b then 1%nat else 0%nat.

(** How many times one pair in a lag is accumulated, by type. *)
Definition mult (type : string) (di td tk : R) : nat :=
  let a := deg2rad di in
  let ta := deg2rad td in
  let b := deg2rad (1 / 100) in
  if String.eqb type "omnidirectional" then 1%nat
  else if String.eqb type "directional" then
    (b2n (window a ta b tk) + b2n (window (fold_angle di) ta b tk))%nat
  else if String.eqb type "directional+orientational" then
    b2n (window a ta b tk)
  else 0%nat.

(** The weight of the pair [op] in lag [s]: its multiplicity when its
    distance [fr op] is in the lag, and 0 otherwise. *)
Definition weight (fr ft : nat * nat -> R) (L : R) (type : string)
    (di td : R) (s : nat) (op : nat * nat) : nat :=
  if in_lag L s (fr op) then mult type di td (ft op) else 0%nat.

(** The count and the sum one lag accumulates over a list of pairs. *)
Definition wcount (fr ft : nat * nat -> R) (L : R) (type : string)
    (di td : R) (s : nat) (ps : list (nat * nat)) : nat :=
  nsum (map (weight fr ft L type di td s) ps).

Definition wsum (fr ft fd : nat * nat -> R) (L : R) (type : string)
    (di td : R) (s : nat) (ps : list (nat * nat)) : R :=
  Rsum (map (fun op => INR (weight fr ft L type di td s op) * fd op) ps).

(** The entry of [g] for lag [s] after its iteration. *)
Definition lag_value (fr ft fd : nat * nat -> R) (L : R) (type : string)
    (di td : R) (ps : list (nat * nat)) (s : nat) : option R :=
  if Nat.eqb (wcount fr ft L type di td s ps) 0 then None
  else Some (wsum fr ft fd L type di td s ps
             / INR (wcount fr ft L type di td s ps * 2)).

(** The lag test on the distance [fr op] of a pair. *)
Definition inside_lag (fr : nat * nat -> R) (L : R) (s : nat)
    (op : nat * nat) : bool :=
  strictly_inside (INR s * L) ((INR s + 1) * L) (fr op).

Definition is_number (a : option R) : bool :=
  match a with Some _ => true | None => false end.

(** The call of [curve_fit] for the model [j] and the direction [i]. *)
Definition outcome (curve_fit : curve_fit_t)
    (func : list (R -> R -> R -> R -> R)) (h g : list (list R))
    (p0 : list R) (j i : nat) : cf_outcome :=
  curve_fit (nth j func expvar) (nth i h []) (nth i g []) p0.

(** The outcomes the [try] block recovers from: a return, whatever the
    covariance is, and an [AttributeError]. *)
Definition recoverable (o : cf_outcome) : bool :=
  match o with
  | CFReturn _ _ => true
  | CFRaise AttributeError => true
  | CFRaise _ => false
  end.

(** What an outcome writes into [popt], [pcov] and [vark], and prints. *)
Definition popt_cell (o : cf_outcome) : option (list R) :=
  match o with CFReturn p _ => Some p | CFRaise _ => None end.

Definition pcov_cell (o : cf_outcome) : option cov :=
  match o with CFReturn _ c => Some c | CFRaise _ => None end.

Definition vark_cell (o : cf_outcome) : score :=
  match o with
  | CFReturn p (CovMatrix m) => Fin (fit_score p (diag_from 0 m))
  | _ => Inf
  end.

Definition warn_cell (di : list R) (j i : nat) (o : cf_outcome) : list diag :=
  match o with
  | CFReturn _ (CovMatrix _) => []
  | _ => [FitWarning (nth j subtitles EmptyString) (nth i di 0)]
  end.

(** An optional write into a matrix. *)
Definition wr {A : Type} (o : option A) (M : list (list A)) (j i : nat)
    : list (list A) :=
  match o with Some a => upd2 M j i a | None => M end.

Definition cell_value {A : Type} (init : A) (o : option A) : A :=
  match o with Some a => a | None => init end.

Definition cell_step (di : list R) (j i : nat) (o : cf_outcome)
    (st : fit_state) : fit_state :=
  mkFit (wr (popt_cell o) (f_popt st) j i) (wr (pcov_cell o) (f_pcov st) j i)
    (wr (Some (vark_cell o)) (f_vark st) j i)
    (f_log st ++ warn_cell di j i o).

(** A [curve_fit] that does not converge: it raises [RuntimeError]. *)
Definition curve_fit_not_converging : curve_fit_t :=
  fun _ _ _ _ => CFRaise (RuntimeError "Optimal parameters not found").

(** A [curve_fit] that returns the parameters (1, 1, 1) and the identity
    as covariance. *)
Definition curve_fit_unit : curve_fit_t :=
  fun _ _ _ _ =>
    CFReturn [1; 1; 1] (CovMatrix [[1; 0; 0]; [0; 1; 0]; [0; 0; 1]]).

(** The arrays and the log after the fitting loops, cell by cell from the
    outcomes [F j i] of the calls. *)
Definition fitted_popt (F : nat -> nat -> cf_outcome) (nf nd : nat)
    : list (list (list R)) :=
  map (fun j => map (fun i => cell_value (zeros 3) (popt_cell (F j i)))
                  (seq 0 nd)) (seq 0 nf).

Definition fitted_pcov (F : nat -> nat -> cf_outcome) (nf nd : nat)
    : list (list cov) :=
  map (fun j => map (fun i => cell_value (CovScalar (Fin 0))
                                (pcov_cell (F j i)))
                  (seq 0 nd)) (seq 0 nf).

Definition fitted_vark (F : nat -> nat -> cf_outcome) (nf nd : nat)
    : list (list score) :=
  map (fun j => map (fun i => vark_cell (F j i)) (seq 0 nd)) (seq 0 nf).

Definition fitted_log (di : list R) (F : nat -> nat -> cf_outcome)
    (nf nd : nat) : list diag :=
  flat_map (fun j => flat_map (fun i => warn_cell di j i (F j i)) (seq 0 nd))
    (seq 0 nf).

(** The state before the fitting loops. *)
Definition fit_init (nf nd : nat) (log : list diag) : fit_state :=
  mkFit (repeat (repeat (zeros 3) nd) nf)
    (repeat (repeat (CovScalar (Fin 0)) nd) nf)
    (repeat (repeat (Fin 0) nd) nf) log.

(** A [curve_fit] that finds parameters but no covariance matrix. *)
Definition curve_fit_no_cov : curve_fit_t :=
  fun _ _ _ _ => CFReturn [1; 1; 1] (CovScalar Inf).

(** The parameters fitted for the model [j] and the direction [i], and
    the results read from a parameter triple [(c0, ce, a0)]. *)
Definition fitted_params (F : nat -> nat -> cf_outcome) (j i : nat) : list R :=
  cell_value (zeros 3) (popt_cell (F j i)).

Definition nugget_of (p : list R) : R := nth 0 p 0.

Definition sill_of (p : list R) : R := nth 0 p 0 + nth 1 p 0.

Definition range_of (rf : R -> R -> R -> R -> R) (p : list R) : R :=
  rf (sill_of p) (nth 0 p 0) (nth 1 p 0) (nth 2 p 0).

(** The mean over the directions of the scores of the model [j]. *)
Definition model_mean_score (F : nat -> nat -> cf_outcome) (nd j : nat)
    : score :=
  mean_score (map (fun i => vark_cell (F j i)) (seq 0 nd)).

(** The direction, in degrees, whose window the directional type tests
    besides the one of [di]. *)
Definition fold_direction (di : R) : R :=
  if Rltb (deg2rad di) 0 then di + 180 else di - 180.


(** The outcomes of [curve_fit] whose score the program computes as a
    number or as [+inf]: three parameters, and with a covariance matrix
    three rows of three numbers, no parameter zero and no negative
    variance (in numpy a zero parameter makes the quotient infinite or not
    a number, and a negative variance has no square root). *)
Definition score_defined (o : cf_outcome) : Prop :=
  match o with
  | CFReturn p (CovMatrix m) =>
      length p = 3%nat /\ length m = 3%nat
      /\ (forall row, In row m -> length row = 3%nat)
      /\ (forall a, In a p -> a <> 0)
      /\ (forall d, In d (diag_from 0 m) -> 0 <= d)
  | CFReturn p (CovScalar _) => length p = 3%nat
  | CFRaise _ => True
  end.


(** ** The geometry and the binner on doubles

    The same functions with the program's numbers: [float] is the IEEE
    binary64 type and its operations round as the machine does.  The module
    keeps the two library functions the program calls and that have no
    counterpart here as parameters: [np.arctan2], away from a zero [dy],
    and the power [x**2]. *)

Module Doubles.

Local Open Scope float_scope.

(** A Python integer where it meets a double. *)
Definition of_nat (n : nat) : float := of_uint63 (Uint63.of_Z (Z.of_nat n)).

(** [np.pi]. *)
Definition pi : float := 0x1.921fb54442d18p+1.

(** [np.deg2rad(d)] is [d * (pi / 180)]. *)
Definition deg2rad (d : float) : float := d * (pi / 180).

(** [np.zeros(m)]. *)
Definition zeros (m : nat) : list float := repeat 0 m.

(** [max(r)]: Python walks the array and keeps an element when it is
    greater than the one kept so far; on an empty array it raises. *)
Definition max_list (l : list float) : option float :=
  match l with
  | [] => None
  | a :: l' => Some (fold_left (fun m b => if m <? b then b else m) l' a)
  end.

(** [t = np.where(t==-180, 180, t)]. *)
Definition remap_angles (t : list float) : list float :=
  map (fun a => if a =? -180 then 180 else a) t.

(** [np.delete(l, np.where(np.isnan(g)))]. *)
Fixpoint delete_nan {A : Type} (g : list float) (l : list A) : list A :=
  match g, l with
  | a :: g', b :: l' =>
      if is_nan a then delete_nan g' l' else b :: delete_nan g' l'
  | _, _ => []
  end.

Section Library.

(** [np.arctan2(dy, dx)] for [dy] other than a zero, and [x**2]. *)
Variable atan2 : float -> float -> float.
Variable pow2 : float -> float.

(** [np.arctan2(dy, dx)]: for a zero [dy] the result is the zero or the
    [pi] that carries the sign of [dy]. *)
Definition arctan2 (dy dx : float) : float :=
  match classify dy with
  | PZero =>
      if dx <? 0 then pi
      else if 0 <? dx then 0
      else match classify dx with
           | NZero => pi
           | PZero => 0
           | _ => atan2 dy dx
           end
  | NZero =>
      if dx <? 0 then - pi
      else if 0 <? dx then -0
      else match classify dx with
           | NZero => - pi
           | PZero => -0
           | _ => atan2 dy dx
           end
  | _ => atan2 dy dx
  end.

Definition distang_body (x y : list float) (o : nat)
    (st : list float * list float * nat) (p : nat)
    : list float * list float * nat :=
  let '(t, r, k) := st in
  let dx := nth p x 0 - nth o x 0 in
  let dy := nth p y 0 - nth o y 0 in
  (upd t k (arctan2 dy dx), upd r k (PrimFloat.sqrt (pow2 dx + pow2 dy)),
   S k).

Definition distang_loops (x y : list float) (n : nat)
    (st : list float * list float * nat) : list float * list float * nat :=
  fold_left
    (fun st o => fold_left (distang_body x y o) (range (o + 1) n) st)
    (range 0 (n - 1)) st.

(** [distang(x,y)]: returns [(r, t, xr, n)]. *)
Definition distang (x y : list float)
    : result (list float * list float * float * nat) :=
  let n := length x in
  let t := zeros (n * (n - 1) / 2) in
  let r := zeros (n * (n - 1) / 2) in
  let '(t, r, _) := distang_loops x y n (t, r, 0%nat) in
  match max_list r with
  | None => Raise (ValueError "max() arg is an empty sequence")
  | Some xr => Ok (r, t, xr, n)
  end.

(** The angular test of the two directional types. *)
Definition window (c ta b tk : float) : bool :=
  if deg2rad 180 <? c + ta + b then
    ((c - ta - b <? tk) && (tk <? c))
    || ((c <? tk) && (tk <? deg2rad 180 + b))
    || ((- deg2rad 180 - b <? tk) && (tk <? - deg2rad 360 + (c + ta + b)))
  else if c - ta - b <? - deg2rad 180 then
    ((tk <? c + ta + b) && (c <? tk))
    || ((tk <? c) && (- deg2rad 180 - b <? tk))
    || ((tk <? deg2rad 180 + b) && (deg2rad 360 + (c - ta - b) <? tk))
  else
    (c - ta - b <? tk) && (tk <? c + ta + b).

(** [s*L < abs(rk) < (s+1)*L]. *)
Definition in_lag (L : float) (s : nat) (rk : float) : bool :=
  (of_nat s * L <? abs rk) && (abs rk <? of_nat (s + 1) * L).

(** [g[s] += d; q += 1]. *)
Definition accum (s : nat) (d : float) (gq : list float * nat)
    : list float * nat :=
  let '(g, q) := gq in
  (upd g s (nth s g 0 + d), S q).

Definition fold_angle (di : float) : float :=
  if deg2rad di <? 0 then deg2rad (di + 180) else deg2rad (di - 180).

(** The three [if type == ...] blocks in sequence. *)
Definition dispatch (type : string) (di td : float) (s : nat)
    (tk d : float) (gq : list float * nat) : list float * nat :=
  let a := deg2rad di in
  let ta := deg2rad td in
  let b := deg2rad 0x1.47ae147ae147bp-7 in
  let gq :=
    if String.eqb type "omnidirectional" then accum s d gq else gq in
  let gq :=
    if String.eqb type "directional" then
      let m := fold_angle di in
      let gq := if window a ta b tk then accum s d gq else gq in
      if window m ta b tk then accum s d gq else gq
    else gq in
  if String.eqb type "directional+orientational" then
    if window a ta b tk then accum s d gq else gq
  else gq.

(** The body of the innermost loop; the state is [(g, q, k)]. *)
Definition pair_step (r t z : list float) (L : float) (type : string)
    (di td : float) (s o : nat) (st : list float * nat * nat) (p : nat)
    : list float * nat * nat :=
  let '(g, q, k) := st in
  let '(g, q) :=
    if in_lag L s (nth k r 0) then
      dispatch type di td s (nth k t 0) (pow2 (nth p z 0 - nth o z 0)) (g, q)
    else (g, q) in
  (g, q, S k).

(** One iteration of the loop over the lags. *)
Definition lag_step (r t : list float) (n : nat) (z : list float)
    (L : float) (type : string) (di td : float)
    (gc : list float * list nat) (s : nat) : list float * list nat :=
  let '(g, c) := gc in
  let g := upd g s 0 in
  let c := upd c s 0%nat in
  let '(g, q, _) :=
    fold_left
      (fun st o =>
         fold_left (pair_step r t z L type di td s o) (range (o + 1) n) st)
      (range 0 (n - 1)) (g, 0%nat, 0%nat) in
  let g :=
    if Nat.eqb q 0 then upd g s nan
    else upd g s (nth s g 0 / of_nat (q * 2)) in
  (g, upd c s q).

(** [semivario(r,t,xr,n,z,nL,di,td,type)]: returns [(h, g, c)], the counts
    as naturals. *)
Definition semivario (r t : list float) (xr : float) (n : nat)
    (z : list float) (nL : nat) (di td : float) (type : string)
    : list float * list float * list nat :=
  let L := xr / of_nat nL in
  let g := zeros nL in
  let c := repeat 0%nat nL in
  let '(g, c) :=
    fold_left (lag_step r t n z L type di td) (range 0 nL) (g, c) in
  let h := map (fun s => of_nat s * L + L / 2) (range 0 nL) in
  (delete_nan g h, delete_nan g g, delete_nan g c).

(** *** The words of the specification on doubles *)

(** The distance between the points [o] and [p], and the squared
    difference of their values. *)
Definition dist (x y : list float) (op : nat * nat) : float :=
  PrimFloat.sqrt (pow2 (nth (snd op) x 0 - nth (fst op) x 0)
        + pow2 (nth (snd op) y 0 - nth (fst op) y 0)).

Definition angle (x y : list float) (op : nat * nat) : float :=
  arctan2 (nth (snd op) y 0 - nth (fst op) y 0)
          (nth (snd op) x 0 - nth (fst op) x 0).

Definition sqdiff (v : list float) (op : nat * nat) : float :=
  pow2 (nth (snd op) v 0 - nth (fst op) v 0).

Variables (x y v : list float) (L : float).

(** The pairs assigned to lag [s]: those whose distance is strictly
    inside [(s*L, (s+1)*L)], the two edges as the machine computes them. *)
Definition lag_pairs (s : nat) : list (nat * nat) :=
  filter (fun op => (of_nat s * L <? abs (dist x y op))
                    && (abs (dist x y op) <? of_nat (s + 1) * L))
    (pairs (length x)).

Definition lag_count (s : nat) : nat := length (lag_pairs s).

(** The squared differences of the pairs of lag [s], added up in the order
    of the pairs. *)
Definition lag_sum (s : nat) : float :=
  fold_left (fun a op => a + sqdiff v op) (lag_pairs s) 0.

Definition lag_semivariance (s : nat) : float :=
  lag_sum s / of_nat (2 * lag_count s).

Definition lag_center (s : nat) : float := of_nat s * L + L / 2.


End Library.

(** A square computed as a product, for the runs on given numbers. *)
Definition square (a : float) : float := a * a.

(** A stand-in for [np.arctan2] in runs that never call it away from a
    zero [dy]. *)
Definition no_atan2 (dy dx : float) : float := nan.

End Doubles.

(** ** Arrays and loops *)

Lemma upd_length {A : Type} (l : list A) (k : nat) (a : A) :
  length (upd l k a) = length l.
Proof.
  revert k; induction l as [|b l IH]; intros [|k]; simpl; auto.
Qed.

Lemma upd_app_at {A : Type} (pre : list A) (b : A) (rest : list A) (a : A) :
  upd (pre ++ b :: rest) (length pre) a = pre ++ a :: rest.
Proof.
  induction pre as [|c pre IH]; simpl; [reflexivity | now rewrite IH].
Qed.

Lemma nth_upd_same {A : Type} (l : list A) (k : nat) (a d : A) :
  (k < length l)%nat -> nth k (upd l k a) d = a.
Proof.
  revert k; induction l as [|b l IH]; intros [|k] Hk; simpl in *;
    try lia; auto.
  apply IH; lia.
Qed.

Lemma upd_upd {A : Type} (l : list A) (k : nat) (a b : A) :
  upd (upd l k a) k b = upd l k b.
Proof.
  revert k; induction l as [|c l IH]; intros [|k]; simpl; auto.
  now rewrite IH.
Qed.

(** Two nested loops are one loop over the pairs they enumerate. *)
Lemma nested_loops_flat {S : Type} (f : nat -> S -> nat -> S)
    (inner : nat -> list nat) (outer : list nat) (st : S) :
  fold_left (fun st o => fold_left (f o) (inner o) st) outer st
  = fold_left (fun st op => f (fst op) st (snd op))
      (flat_map (fun o => map (pair o) (inner o)) outer) st.
Proof.
  revert st; induction outer as [|o outer IH]; intros st; simpl.
  - reflexivity.
  - rewrite fold_left_app, <- IH. f_equal.
    generalize (inner o); intros l; revert st.
    induction l as [|p l IHl]; intros st; simpl; auto.
Qed.

Lemma length_pairs_from (n m a : nat) :
  (a + m <= n)%nat ->
  (2 * length (flat_map (fun o => map (pair o) (range (o + 1) n)) (seq a m))
   = m * (2 * n - 2 * a - m - 1))%nat.
Proof.
  revert a; induction m as [|m IH]; intros a Ha; simpl seq; simpl flat_map.
  - reflexivity.
  - rewrite length_app, length_map. unfold range at 1. rewrite length_seq.
    specialize (IH (S a) ltac:(lia)). nia.
Qed.

Lemma length_pairs (n : nat) : length (pairs n) = (n * (n - 1) / 2)%nat.
Proof.
  pose proof (length_pairs_from n (n - 1 - 0) 0 ltac:(lia)) as H.
  unfold pairs. unfold range at 2.
  apply Nat.div_unique_exact; [lia | nia].
Qed.

(** ** The pairs *)

Lemma in_pairs (n o p : nat) :
  In (o, p) (pairs n) <-> (o < p < n)%nat.
Proof.
  unfold pairs, range. rewrite in_flat_map. split.
  - intros (o' & Ho & Hp). apply in_map_iff in Hp as (p' & E & Hp).
    inversion E; subst. apply in_seq in Ho, Hp. lia.
  - intros H. exists o. split; [apply in_seq; lia|].
    apply in_map_iff. exists p. split; [reflexivity | apply in_seq; lia].
Qed.

Lemma sorted_app {A : Type} (lt_ : A -> A -> Prop) (l1 l2 : list A) :
  StronglySorted lt_ l1 -> StronglySorted lt_ l2 ->
  (forall a b, In a l1 -> In b l2 -> lt_ a b) ->
  StronglySorted lt_ (l1 ++ l2).
Proof.
  induction l1 as [|a l1 IH]; intros H1 H2 H; simpl; auto.
  inversion H1; subst. constructor.
  - apply IH; auto. intros; apply H; simpl; auto.
  - apply Forall_app. split; auto.
    apply Forall_forall. intros b Hb. apply H; simpl; auto.
Qed.

Lemma sorted_seq (a m : nat) : StronglySorted lt (seq a m).
Proof.
  revert a; induction m as [|m IH]; intros a; simpl; constructor; auto.
  apply Forall_forall. intros b Hb. apply in_seq in Hb. lia.
Qed.

Lemma sorted_map_pair (o : nat) (l : list nat) :
  StronglySorted lt l -> StronglySorted pair_lt (map (pair o) l).
Proof.
  induction 1 as [|p l Hl IH Hp]; simpl; constructor; auto.
  apply Forall_forall. intros b Hb. apply in_map_iff in Hb as (p' & <- & Hp').
  right. simpl. split; auto. rewrite Forall_forall in Hp. auto.
Qed.

Lemma sorted_pairs_from (n m a : nat) :
  StronglySorted pair_lt
    (flat_map (fun o => map (pair o) (range (o + 1) n)) (seq a m)).
Proof.
  revert a; induction m as [|m IH]; intros a; simpl; [constructor|].
  apply sorted_app; auto.
  - apply sorted_map_pair, sorted_seq.
  - intros u w Hu Hw. apply in_map_iff in Hu as (p & <- & _).
    apply in_flat_map in Hw as (o' & Ho' & Hw).
    apply in_map_iff in Hw as (p' & <- & _).
    apply in_seq in Ho'. left. simpl. lia.
Qed.

Lemma sorted_pairs (n : nat) : StronglySorted pair_lt (pairs n).
Proof. apply sorted_pairs_from. Qed.

(** ** [distang] fills its arrays pair by pair *)

Lemma distang_body_eq (x y : list R) (o p k : nat) (t r : list R) :
  distang_body x y o (t, r, k) p
  = (upd t k (angle x y (o, p)), upd r k (dist x y (o, p)), S k).
Proof. reflexivity. Qed.

Lemma distang_fill (x y : list R) (ps : list (nat * nat)) :
  forall pre_t pre_r rest_t rest_r,
    length pre_t = length pre_r ->
    (length ps <= length rest_t)%nat -> (length ps <= length rest_r)%nat ->
    fold_left (fun st op => distang_body x y (fst op) st (snd op)) ps
      (pre_t ++ rest_t, pre_r ++ rest_r, length pre_r)
    = (pre_t ++ map (angle x y) ps ++ skipn (length ps) rest_t,
       pre_r ++ map (dist x y) ps ++ skipn (length ps) rest_r,
       (length pre_r + length ps)%nat).
Proof.
  induction ps as [|[o p] ps IH]; intros pre_t pre_r rest_t rest_r E Ht Hr.
  - simpl. now rewrite Nat.add_0_r.
  - destruct rest_t as [|a rest_t]; [simpl in Ht; lia|].
    destruct rest_r as [|b rest_r]; [simpl in Hr; lia|].
    cbn [fold_left fst snd]. rewrite distang_body_eq.
    rewrite <- E at 1. rewrite !upd_app_at.
    replace (S (length pre_r)) with (length (pre_r ++ [dist x y (o, p)]))
      by (rewrite length_app; simpl; lia).
    replace (pre_t ++ angle x y (o, p) :: rest_t)
      with ((pre_t ++ [angle x y (o, p)]) ++ rest_t)
      by (now rewrite <- app_assoc).
    replace (pre_r ++ dist x y (o, p) :: rest_r)
      with ((pre_r ++ [dist x y (o, p)]) ++ rest_r)
      by (now rewrite <- app_assoc).
    cbn [length] in Ht, Hr.
    rewrite IH; try lia.
    + rewrite <- !app_assoc, length_app. cbn [map length skipn app].
      f_equal. lia.
    + rewrite !length_app. simpl. lia.
Qed.

Lemma skipn_repeat_all {A : Type} (a : A) (m : nat) :
  skipn m (repeat a m) = [].
Proof. induction m; simpl; auto. Qed.

Lemma distang_loops_spec (x y : list R) (n : nat) :
  distang_loops x y n (zeros (n * (n - 1) / 2), zeros (n * (n - 1) / 2), 0%nat)
  = (map (angle x y) (pairs n), map (dist x y) (pairs n),
     length (pairs n)).
Proof.
  unfold distang_loops. rewrite nested_loops_flat. fold (pairs n).
  rewrite <- length_pairs.
  pose proof (distang_fill x y (pairs n) [] []
                (zeros (length (pairs n))) (zeros (length (pairs n)))) as H.
  simpl in H. rewrite H; unfold zeros; try rewrite repeat_length; auto.
  now rewrite !skipn_repeat_all, !app_nil_r.
Qed.

(** ** The largest element *)

Lemma fold_Rmax_ge (l : list R) (a : R) :
  a <= fold_left Rmax l a /\ (forall b, In b l -> b <= fold_left Rmax l a).
Proof.
  revert a; induction l as [|c l IH]; intros a; simpl.
  - split; [lra | tauto].
  - destruct (IH (Rmax a c)) as [H1 H2]. split.
    + pose proof (Rmax_l a c). lra.
    + intros b [E|Hb]; auto. rewrite <- E. pose proof (Rmax_r a c). lra.
Qed.

Lemma fold_Rmax_in (l : list R) (a : R) :
  fold_left Rmax l a = a \/ In (fold_left Rmax l a) l.
Proof.
  revert a; induction l as [|c l IH]; intros a; simpl; auto.
  destruct (IH (Rmax a c)) as [H|H]; auto.
  rewrite H. unfold Rmax. destruct (Rle_dec a c); auto.
Qed.

Lemma max_list_spec (l : list R) (m : R) :
  max_list l = Some m -> In m l /\ (forall b, In b l -> b <= m).
Proof.
  destruct l as [|a l]; simpl; [discriminate|]. intros E; inversion E; subst.
  destruct (fold_Rmax_ge l a) as [H1 H2]. split.
  - destruct (fold_Rmax_in l a) as [H|H]; auto.
  - intros b [E'|Hb]; auto. now rewrite <- E'.
Qed.

Lemma pairs_nonempty (n : nat) : (2 <= n)%nat -> pairs n <> [].
Proof.
  intros H E. assert (In (0%nat, 1%nat) (pairs n)) as Hin
    by (apply in_pairs; lia).
  rewrite E in Hin. inversion Hin.
Qed.

Lemma distang_ok (x y : list R) :
  (2 <= length x)%nat ->
  exists xr,
    distang x y
    = Ok (map (dist x y) (pairs (length x)),
          map (angle x y) (pairs (length x)), xr, length x)
    /\ max_list (map (dist x y) (pairs (length x))) = Some xr.
Proof.
  intros H. unfold distang. rewrite distang_loops_spec.
  destruct (max_list (map (dist x y) (pairs (length x)))) as [xr|] eqn:E.
  - exists xr. auto.
  - exfalso. pose proof (pairs_nonempty _ H) as Hne.
    destruct (pairs (length x)); [congruence | discriminate].
Qed.

Lemma dist_nonneg (x y : list R) (op : nat * nat) : 0 <= dist x y op.
Proof. apply sqrt_pos. Qed.

Lemma dist_zero (x y : list R) (op : nat * nat) :
  dist x y op = 0 ->
  nth (snd op) x 0 = nth (fst op) x 0 /\ nth (snd op) y 0 = nth (fst op) y 0.
Proof.
  unfold dist. set (dx := nth (snd op) x 0 - nth (fst op) x 0).
  set (dy := nth (snd op) y 0 - nth (fst op) y 0). intros H.
  pose proof (pow2_ge_0 dx). pose proof (pow2_ge_0 dy).
  apply sqrt_eq_0 in H; [|lra].
  assert (dx ^ 2 = 0) as Hx by lra. assert (dy ^ 2 = 0) as Hy by lra.
  simpl in Hx, Hy. assert (dx = 0) by nra. assert (dy = 0) by nra.
  unfold dx, dy in *. split; lra.
Qed.

(** ** One lag of [semivario] *)

(** Closes an equation between two loop states that differ by arithmetic. *)
Ltac close_state :=
  repeat match goal with |- (_, _) = (_, _) => apply f_equal2 end;
  try lia; try reflexivity; try (do 2 f_equal; ring).

Lemma accum_upd (g0 : list (option R)) (s : nat) (u d : R) (q : nat) :
  (s < length g0)%nat ->
  accum s d (upd g0 s (Some u), q) = (upd g0 s (Some (u + d)), S q).
Proof.
  intros H. unfold accum. rewrite nth_upd_same, upd_upd by assumption.
  reflexivity.
Qed.

Lemma dispatch_spec (type : string) (di td : R) (s : nat) (tk d : R)
    (g0 : list (option R)) (u : R) (q : nat) :
  (s < length g0)%nat ->
  dispatch type di td s tk d (upd g0 s (Some u), q)
  = (upd g0 s (Some (u + INR (mult type di td tk) * d)),
     (q + mult type di td tk)%nat).
Proof.
  intros H. unfold dispatch, mult.
  destruct (String.eqb type "omnidirectional") eqn:E1.
  - apply String.eqb_eq in E1. subst type. cbn [String.eqb Ascii.eqb Bool.eqb].
    rewrite accum_upd by assumption. simpl INR.
    close_state.
  - destruct (String.eqb type "directional") eqn:E2.
    + apply String.eqb_eq in E2. subst type.
      cbn [String.eqb Ascii.eqb Bool.eqb].
      destruct (window (deg2rad di) (deg2rad td) (deg2rad (1 / 100)) tk);
        destruct (window (fold_angle di) (deg2rad td) (deg2rad (1 / 100)) tk);
        rewrite ?accum_upd by assumption; simpl b2n; simpl INR;
        close_state.
    + destruct (String.eqb type "directional+orientational").
      * destruct (window (deg2rad di) (deg2rad td) (deg2rad (1 / 100)) tk);
          rewrite ?accum_upd by assumption; simpl b2n; simpl INR;
          close_state.
      * simpl INR. close_state.
Qed.

Lemma nth_map_middle {A : Type} (f : A -> R) (pre : list A) (a : A)
    (post : list A) :
  nth (length pre) (map f (pre ++ a :: post)) 0 = f a.
Proof.
  rewrite map_app. cbn [map].
  rewrite <- (length_map f pre). apply nth_middle.
Qed.

Lemma pair_step_eq (r t z : list R) (L : R) (type : string) (di td : R)
    (s : nat) (g : list (option R)) (q k : nat) (op : nat * nat) :
  pair_step r t z L type di td s (fst op) (g, q, k) (snd op)
  = (fst (if in_lag L s (nth k r 0)
          then dispatch type di td s (nth k t 0) (sqdiff z op) (g, q)
          else (g, q)),
     snd (if in_lag L s (nth k r 0)
          then dispatch type di td s (nth k t 0) (sqdiff z op) (g, q)
          else (g, q)),
     S k).
Proof.
  unfold pair_step, sqdiff.
  destruct (if in_lag L s (nth k r 0) then _ else _). reflexivity.
Qed.

Lemma wsum_cons (fr ft fd : nat * nat -> R) (L : R) (type : string)
    (di td : R) (s : nat) (op : nat * nat) (ps : list (nat * nat)) :
  wsum fr ft fd L type di td s (op :: ps)
  = INR (weight fr ft L type di td s op) * fd op
    + wsum fr ft fd L type di td s ps.
Proof. reflexivity. Qed.

Lemma wcount_cons (fr ft : nat * nat -> R) (L : R) (type : string)
    (di td : R) (s : nat) (op : nat * nat) (ps : list (nat * nat)) :
  wcount fr ft L type di td s (op :: ps)
  = (weight fr ft L type di td s op + wcount fr ft L type di td s ps)%nat.
Proof. reflexivity. Qed.

Section LagLoop.

Variables (fr ft : nat * nat -> R) (z : list R) (L : R) (type : string)
          (di td : R) (s : nat).

Lemma pair_loop (ps0 ps : list (nat * nat)) (g0 : list (option R)) :
  (s < length g0)%nat ->
  forall pre u q,
    ps0 = pre ++ ps ->
    fold_left
      (fun st op =>
         pair_step (map fr ps0) (map ft ps0) z L type di td s
           (fst op) st (snd op))
      ps (upd g0 s (Some u), q, length pre)
    = (upd g0 s (Some (u + wsum fr ft (sqdiff z) L type di td s ps)),
       (q + wcount fr ft L type di td s ps)%nat,
       (length pre + length ps)%nat).
Proof.
  intros Hs. induction ps as [|op ps IH]; intros pre u q E.
  - unfold wsum, wcount. simpl. rewrite Rplus_0_r, !Nat.add_0_r.
    reflexivity.
  - cbn [fold_left]. subst ps0. rewrite pair_step_eq, !nth_map_middle.
    rewrite wsum_cons, wcount_cons.
    replace (S (length pre)) with (length (pre ++ [op]))
      by (rewrite length_app; simpl; lia).
    unfold weight at 1 2.
    destruct (in_lag L s (fr op)).
    + rewrite dispatch_spec by assumption. cbn [fst snd].
      rewrite (IH (pre ++ [op])) by (now rewrite <- app_assoc).
      rewrite length_app. cbn [length].
      close_state.
    + cbn [fst snd].
      rewrite (IH (pre ++ [op])) by (now rewrite <- app_assoc).
      rewrite length_app. cbn [length]. simpl INR.
      close_state.
Qed.

End LagLoop.

Lemma lag_step_spec (fr ft : nat * nat -> R) (n : nat) (z : list R) (L : R)
    (type : string) (di td : R) (g : list (option R)) (c : list nat)
    (s : nat) :
  (s < length g)%nat ->
  lag_step (map fr (pairs n)) (map ft (pairs n)) n z L type di td (g, c) s
  = (upd g s (lag_value fr ft (sqdiff z) L type di td (pairs n) s),
     upd c s (wcount fr ft L type di td s (pairs n))).
Proof.
  intros Hs. unfold lag_step. rewrite nested_loops_flat. fold (pairs n).
  pose proof (pair_loop fr ft z L type di td s (pairs n) (pairs n) g Hs
                [] 0 0%nat eq_refl) as H.
  cbn [length app Nat.add] in H.
  change (fun st op => pair_step (map fr (pairs n)) (map ft (pairs n)) z L
                         type di td s (fst op) st (snd op))
    with (fun (st : list (option R) * nat * nat) (op : nat * nat) =>
            pair_step (map fr (pairs n)) (map ft (pairs n)) z L
              type di td s (fst op) st (snd op)).
  rewrite H. unfold lag_value. rewrite Rplus_0_l.
  destruct (Nat.eqb (wcount fr ft L type di td s (pairs n)) 0).
  - now rewrite !upd_upd.
  - rewrite nth_upd_same by assumption.
    cbn [option_map]. now rewrite !upd_upd.
Qed.

(** ** The loop over the lags *)

Lemma fold_upd_pairs {A B : Type} (G : nat -> A) (C : nat -> B)
    (step : list A * list B -> nat -> list A * list B) :
  (forall g c s, (s < length g)%nat ->
                 step (g, c) s = (upd g s (G s), upd c s (C s))) ->
  forall m pre_g pre_c rest_g rest_c,
    length pre_g = length pre_c ->
    (m <= length rest_g)%nat -> (m <= length rest_c)%nat ->
    fold_left step (seq (length pre_g) m) (pre_g ++ rest_g, pre_c ++ rest_c)
    = (pre_g ++ map G (seq (length pre_g) m) ++ skipn m rest_g,
       pre_c ++ map C (seq (length pre_g) m) ++ skipn m rest_c).
Proof.
  intros Hstep. induction m as [|m IH];
    intros pre_g pre_c rest_g rest_c E Hg Hc.
  - reflexivity.
  - destruct rest_g as [|a rest_g]; [simpl in Hg; lia|].
    destruct rest_c as [|b rest_c]; [simpl in Hc; lia|].
    cbn [seq fold_left map skipn app].
    rewrite Hstep by (rewrite length_app; simpl; lia).
    rewrite upd_app_at.
    replace (upd (pre_c ++ b :: rest_c) (length pre_g) (C (length pre_g)))
      with (pre_c ++ C (length pre_g) :: rest_c)
      by (rewrite E; now rewrite upd_app_at).
    replace (pre_g ++ G (length pre_g) :: rest_g)
      with ((pre_g ++ [G (length pre_g)]) ++ rest_g)
      by (now rewrite <- app_assoc).
    replace (pre_c ++ C (length pre_g) :: rest_c)
      with ((pre_c ++ [C (length pre_g)]) ++ rest_c)
      by (now rewrite <- app_assoc).
    replace (S (length pre_g)) with (length (pre_g ++ [G (length pre_g)]))
      by (rewrite length_app; simpl; lia).
    cbn [length] in Hg, Hc.
    rewrite IH by (rewrite ?length_app; simpl; lia).
    now rewrite <- !app_assoc.
Qed.

Lemma semivario_spec (fr ft : nat * nat -> R) (xr : R) (n : nat)
    (z : list R) (nL : nat) (di td : R) (type : string) :
  semivario (map fr (pairs n)) (map ft (pairs n)) xr n z nL di td type
  = (delete_nan
       (map (lag_value fr ft (sqdiff z) (xr / INR nL) type di td (pairs n))
          (seq 0 nL))
       (map (fun s => INR s * (xr / INR nL) + xr / INR nL / 2) (seq 0 nL)),
     numbers
       (map (lag_value fr ft (sqdiff z) (xr / INR nL) type di td (pairs n))
          (seq 0 nL)),
     delete_nan
       (map (lag_value fr ft (sqdiff z) (xr / INR nL) type di td (pairs n))
          (seq 0 nL))
       (map (fun s => wcount fr ft (xr / INR nL) type di td s (pairs n))
          (seq 0 nL))).
Proof.
  unfold semivario, range. rewrite Nat.sub_0_r.
  pose proof (fold_upd_pairs
    (lag_value fr ft (sqdiff z) (xr / INR nL) type di td (pairs n))
    (fun s => wcount fr ft (xr / INR nL) type di td s (pairs n))
    (lag_step (map fr (pairs n)) (map ft (pairs n)) n z (xr / INR nL)
       type di td)
    (fun g c s H => lag_step_spec fr ft n z (xr / INR nL) type di td g c s H)
    nL [] [] (repeat (Some 0) nL) (repeat 0%nat nL) eq_refl) as H.
  cbn [length app] in H. rewrite H by (rewrite repeat_length; lia).
  now rewrite !skipn_repeat_all, !app_nil_r.
Qed.

(** Deleting the entries at the [nan]s of [g] keeps the lags whose entry
    is a number. *)
Lemma delete_nan_map {A : Type} (G : nat -> option R) (H : nat -> A)
    (l : list nat) :
  delete_nan (map G l) (map H l)
  = map H (filter (fun s => is_number (G s)) l).
Proof.
  induction l as [|s l IH]; simpl; auto.
  destruct (G s); simpl; now rewrite IH.
Qed.

Lemma numbers_map (G : nat -> option R) (V : nat -> R) (l : list nat) :
  (forall s, is_number (G s) = true -> G s = Some (V s)) ->
  numbers (map G l) = map V (filter (fun s => is_number (G s)) l).
Proof.
  intros HV. induction l as [|s l IH]; simpl; auto.
  destruct (G s) eqn:E; simpl; rewrite IH; auto.
  specialize (HV s). rewrite E in HV. specialize (HV eq_refl).
  now inversion HV.
Qed.

(** ** The omnidirectional type *)

Lemma in_lag_nonneg (L : R) (s : nat) (d : R) :
  0 <= d ->
  in_lag L s d = strictly_inside (INR s * L) ((INR s + 1) * L) d.
Proof.
  intros H. unfold in_lag, strictly_inside.
  rewrite Rabs_right by lra. rewrite plus_INR. reflexivity.
Qed.

Section Omnidirectional.

Variables (fr ft fd : nat * nat -> R) (L di td : R) (s : nat).
Hypothesis fr_nonneg : forall op, 0 <= fr op.

Lemma weight_omni (op : nat * nat) :
  weight fr ft L "omnidirectional" di td s op = b2n (inside_lag fr L s op).
Proof.
  unfold weight, inside_lag. rewrite in_lag_nonneg by apply fr_nonneg.
  reflexivity.
Qed.

Lemma wcount_omni (ps : list (nat * nat)) :
  wcount fr ft L "omnidirectional" di td s ps
  = length (filter (inside_lag fr L s) ps).
Proof.
  unfold wcount. induction ps as [|op ps IH]; [reflexivity|].
  cbn [map nsum fold_right filter]. fold (nsum (map
    (weight fr ft L "omnidirectional" di td s) ps)).
  rewrite IH, weight_omni. destruct (inside_lag fr L s op); reflexivity.
Qed.


End Omnidirectional.

Lemma sorted_filter (f : nat -> bool) (l : list nat) :
  StronglySorted lt l -> StronglySorted lt (filter f l).
Proof.
  induction 1 as [|a l Hl IH Ha]; simpl; [constructor|].
  destruct (f a); auto. constructor; auto.
  rewrite Forall_forall in *. intros b Hb. apply filter_In in Hb. apply Ha, Hb.
Qed.

Lemma Rltb_true (a b : R) : Rltb a b = true <-> a < b.
Proof. unfold Rltb. destruct (Rlt_dec a b); split; auto; discriminate. Qed.

Lemma Rltb_false (a b : R) : Rltb a b = false <-> ~ a < b.
Proof.
  unfold Rltb. destruct (Rlt_dec a b); split; auto; try discriminate; tauto.
Qed.

Lemma strictly_inside_true (lo hi d : R) :
  strictly_inside lo hi d = true <-> lo < d < hi.
Proof.
  unfold strictly_inside. rewrite andb_true_iff, !Rltb_true. tauto.
Qed.



Lemma in_nonempty_lags (x y : list R) (L : R) (nL s : nat) :
  In s (nonempty_lags x y L nL) <-> (s < nL)%nat /\ lag_pairs x y L s <> [].
Proof.
  unfold nonempty_lags, lag_count. rewrite filter_In, in_seq.
  rewrite negb_true_iff, Nat.eqb_neq, length_zero_iff_nil. intuition lia.
Qed.

Lemma in_lag_pairs (x y : list R) (L : R) (s : nat) (op : nat * nat) :
  In op (lag_pairs x y L s)
  <-> In op (pairs (length x))
      /\ INR s * L < dist x y op < (INR s + 1) * L.
Proof.
  unfold lag_pairs. rewrite filter_In, strictly_inside_true. tauto.
Qed.

(** ** The loops on doubles *)

Section DoublesFacts.

Variable atan2 : float -> float -> float.
Variable pow2 : float -> float.







Section LagLoopDoubles.

Variables (fr ft : nat * nat -> float) (z : list float) (L : float)
          (di td : float) (s : nat).


End LagLoopDoubles.





End DoublesFacts.



(** The series the binner returns on doubles for the points (0,0), (1,0),
    (3,0) with the values 0, 1, 3 and two lags: the pair at distance 1 is
    in lag 0, the pair at distance 2 in lag 1, and the pair at distance 3,
    the largest, in no lag. *)
Lemma omnidirectional_series_line3 :
  Doubles.distang Doubles.no_atan2 Doubles.square [0; 1; 3]%float
    [0; 0; 0]%float
  = Ok ([1; 3; 2], [0; 0; 0], 3, 3%nat)%float
  /\ Doubles.semivario Doubles.square [1; 3; 2]%float
       (Doubles.remap_angles [0; 0; 0]%float) 3 3 [0; 1; 3]%float 2 0 180
       "omnidirectional"
     = ([0.75; 2.25]%float, [0.5; 2]%float, [1; 1]%nat).
Proof. split; vm_compute; reflexivity. Qed.

(** C5 (pairwise geometry).  For [n >= 2] points [distang] returns
    [n(n-1)/2] distances and as many angles, those of the pairs [(o,p)]
    with [o < p < n] listed by ascending [o] then ascending [p]; every
    distance is non-negative, and positive unless the two points have the
    same coordinates; and [xr] is the largest of the distances. *)
Theorem distang_pairs (x y : list R) :
  (2 <= length x)%nat -> length y = length x ->
  exists r t xr,
    distang x y = Ok (r, t, xr, length x)
    /\ length r = (length x * (length x - 1) / 2)%nat
    /\ length t = (length x * (length x - 1) / 2)%nat
    /\ r = map (dist x y) (pairs (length x))
    /\ t = map (angle x y) (pairs (length x))
    /\ StronglySorted pair_lt (pairs (length x))
    /\ (forall o p, In (o, p) (pairs (length x)) <-> (o < p < length x)%nat)
    /\ (forall op, In op (pairs (length x)) ->
          0 <= dist x y op
          /\ (0 < dist x y op
              \/ (nth (snd op) x 0 = nth (fst op) x 0
                  /\ nth (snd op) y 0 = nth (fst op) y 0)))
    /\ In xr r /\ (forall d, In d r -> d <= xr).
Proof.
  intros Hn _. destruct (distang_ok x y Hn) as (xr & Hd & Hmax).
  apply max_list_spec in Hmax as [Hin Hle].
  exists (map (dist x y) (pairs (length x))),
         (map (angle x y) (pairs (length x))), xr.
  split; [exact Hd|]. rewrite !length_map, length_pairs.
  split; [reflexivity|]. split; [reflexivity|].
  split; [reflexivity|]. split; [reflexivity|].
  split; [apply sorted_pairs|]. split; [intros o p; apply in_pairs|].
  split; [|split; assumption].
  intros op _. pose proof (dist_nonneg x y op) as H0. split; [exact H0|].
  destruct (Req_dec (dist x y op) 0) as [E|E].
  - right. apply dist_zero, E.
  - left. lra.
Qed.

(** The theorem on the points (0,0), (1,0), (3,0). *)
Lemma distang_pairs_witness :
  (2 <= length [0; 1; 3])%nat /\ length [0; 0; 0] = length [0; 1; 3]
  /\ exists r t xr,
       distang [0; 1; 3] [0; 0; 0] = Ok (r, t, xr, length [0; 1; 3])
       /\ length r = (length [0; 1; 3] * (length [0; 1; 3] - 1) / 2)%nat
       /\ length t = (length [0; 1; 3] * (length [0; 1; 3] - 1) / 2)%nat
       /\ r = map (dist [0; 1; 3] [0; 0; 0]) (pairs (length [0; 1; 3]))
       /\ t = map (angle [0; 1; 3] [0; 0; 0]) (pairs (length [0; 1; 3]))
       /\ StronglySorted pair_lt (pairs (length [0; 1; 3]))
       /\ (forall o p, In (o, p) (pairs (length [0; 1; 3]))
                       <-> (o < p < length [0; 1; 3])%nat)
       /\ (forall op, In op (pairs (length [0; 1; 3])) ->
             0 <= dist [0; 1; 3] [0; 0; 0] op
             /\ (0 < dist [0; 1; 3] [0; 0; 0] op
                 \/ (nth (snd op) [0; 1; 3] 0 = nth (fst op) [0; 1; 3] 0
                     /\ nth (snd op) [0; 0; 0] 0 = nth (fst op) [0; 0; 0] 0)))
       /\ In xr r /\ (forall d, In d r -> d <= xr).
Proof.
  split; [simpl; lia|]. split; [reflexivity|].
  apply (distang_pairs [0; 1; 3] [0; 0; 0]); simpl; lia.
Defined.

(** ** The pair at the largest distance *)

Lemma last_edge_le (xr : R) (nL s : nat) :
  0 <= xr -> (s < nL)%nat -> INR (s + 1) * (xr / INR nL) <= xr.
Proof.
  intros Hx Hs.
  assert (0 < INR nL) as HnL by (apply lt_0_INR; lia).
  assert (INR (s + 1) <= INR nL) as Hle by (apply le_INR; lia).
  assert (INR nL * (xr / INR nL) = xr) as E by (field; lra).
  assert (0 <= xr / INR nL) as Hw
    by (unfold Rdiv; apply Rmult_le_pos;
        [lra | left; apply Rinv_0_lt_compat; lra]).
  revert E Hw. generalize (xr / INR nL). intros w E Hw. nra.
Qed.

Lemma in_lag_max (xr : R) (nL s : nat) :
  0 <= xr -> (s < nL)%nat -> in_lag (xr / INR nL) s xr = false.
Proof.
  intros Hx Hs. unfold in_lag. rewrite Rabs_right by lra.
  apply andb_false_iff. right. apply Rltb_false.
  pose proof (last_edge_le xr nL s Hx Hs). lra.
Qed.


Lemma nsum_app (l1 l2 : list nat) : nsum (l1 ++ l2) = (nsum l1 + nsum l2)%nat.
Proof.
  unfold nsum. induction l1 as [|a l1 IH]; cbn [app fold_right];
    [reflexivity | rewrite IH; lia].
Qed.

Lemma nsum_cons (a : nat) (l : list nat) : nsum (a :: l) = (a + nsum l)%nat.
Proof. reflexivity. Qed.

(** A distance is strictly inside at most one lag. *)
Lemma one_lag (L d : R) (m : nat) :
  0 <= L ->
  (nsum (map (fun s => b2n (strictly_inside (INR s * L) ((INR s + 1) * L) d))
           (seq 0 m)) <= 1)%nat
  /\ (nsum (map (fun s => b2n (strictly_inside (INR s * L) ((INR s + 1) * L) d))
              (seq 0 m)) = 1%nat -> d < INR m * L).
Proof.
  intros HL. induction m as [|m [IH1 IH2]].
  - simpl. split; [lia | discriminate].
  - rewrite seq_S, map_app. cbn [Nat.add map].
    rewrite nsum_app, nsum_cons. cbn [nsum fold_right]. rewrite S_INR.
    destruct (strictly_inside (INR m * L) ((INR m + 1) * L) d) eqn:E.
    + apply strictly_inside_true in E. simpl b2n.
      assert (nsum (map (fun s => b2n (strictly_inside (INR s * L)
                ((INR s + 1) * L) d)) (seq 0 m)) <> 1%nat) as Hne
        by (intros H1; apply IH2 in H1; lra).
      split; [lia | intros _; lra].
    + simpl b2n. rewrite Nat.add_0_r. split; [assumption|].
      intros H1. apply IH2 in H1. nra.
Qed.

Lemma length_filter_nsum {A : Type} (f : A -> bool) (l : list A) :
  length (filter f l) = nsum (map (fun a => b2n (f a)) l).
Proof.
  induction l as [|a l IH]; cbn [filter map]; [reflexivity|].
  rewrite nsum_cons, <- IH. destruct (f a); reflexivity.
Qed.

(** Summing by lags then by pairs is summing by pairs then by lags. *)
Lemma nsum_swap {A : Type} (f : nat -> A -> nat) (ss : list nat)
    (ps : list A) :
  nsum (map (fun s => nsum (map (f s) ps)) ss)
  = nsum (map (fun op => nsum (map (fun s => f s op) ss)) ps).
Proof.
  induction ps as [|op ps IH]; cbn [map].
  - induction ss as [|s ss IHs]; [reflexivity|].
    cbn [map]. now rewrite nsum_cons, IHs.
  - rewrite nsum_cons, <- IH. clear IH.
    induction ss as [|s ss IHs]; [reflexivity|].
    cbn [map]. rewrite !nsum_cons, IHs. lia.
Qed.

Lemma nsum_bounded {A : Type} (f : A -> nat) (ps : list A) (op0 : A) :
  (forall op, f op <= 1)%nat -> In op0 ps -> f op0 = 0%nat ->
  (nsum (map f ps) <= length ps - 1)%nat.
Proof.
  intros Hle Hin H0.
  assert (forall l, nsum (map f l) <= length l)%nat as Hall.
  { induction l as [|a l IH]; [simpl; lia|].
    cbn [map length]. rewrite nsum_cons. specialize (Hle a). lia. }
  apply in_split in Hin as (l1 & l2 & ->).
  rewrite map_app, nsum_app, length_app. cbn [map length].
  rewrite nsum_cons, H0.
  pose proof (Hall l1). pose proof (Hall l2). lia.
Qed.

Lemma nsum_filter_nonzero (f : nat -> nat) (l : list nat) :
  nsum (map f (filter (fun s => negb (Nat.eqb (f s) 0)) l)) = nsum (map f l).
Proof.
  induction l as [|s l IH]; [reflexivity|]. cbn [filter map].
  destruct (Nat.eqb (f s) 0) eqn:E; cbn [negb map]; rewrite ?nsum_cons, IH.
  - apply Nat.eqb_eq in E. lia.
  - reflexivity.
Qed.

Lemma nsum_zero {A : Type} (f : A -> nat) (l : list A) :
  (forall a, In a l -> f a = 0%nat) -> nsum (map f l) = 0%nat.
Proof.
  induction l as [|a l IH]; intros H; [reflexivity|].
  cbn [map]. rewrite nsum_cons, IH, H; [reflexivity | now left |].
  intros b Hb. apply H. now right.
Qed.

Lemma omni_total_count (x y : list R) (xr : R) (nL : nat) :
  (1 <= nL)%nat -> In xr (map (dist x y) (pairs (length x))) ->
  (nsum (map (lag_count x y (xr / INR nL)) (nonempty_lags x y (xr / INR nL) nL))
   <= length (pairs (length x)) - 1)%nat.
Proof.
  intros HnL Hin. apply in_map_iff in Hin as (op0 & Hop0 & Hin).
  assert (0 <= xr) as Hx by (rewrite <- Hop0; apply dist_nonneg).
  assert (0 <= xr / INR nL) as HL.
  { unfold Rdiv. apply Rmult_le_pos; [assumption|].
    left. apply Rinv_0_lt_compat, lt_0_INR. lia. }
  unfold nonempty_lags. rewrite nsum_filter_nonzero.
  unfold lag_count, lag_pairs.
  rewrite (map_ext _ _ (fun s => length_filter_nsum _ _)).
  rewrite (nsum_swap
    (fun s op => b2n (strictly_inside (INR s * (xr / INR nL))
                        ((INR s + 1) * (xr / INR nL)) (dist x y op)))).
  apply nsum_bounded with op0; [| assumption |].
  - intros op. apply one_lag, HL.
  - apply nsum_zero. intros s Hs. apply in_seq in Hs.
    rewrite <- in_lag_nonneg by apply dist_nonneg.
    rewrite Hop0, in_lag_max by (assumption || lia). reflexivity.
Qed.





(** ** The checks at the head of the driver *)

Lemma di_range_check_false (di : list R) :
  Rltb 180 (b2R (array_any di)) || Rltb (b2R (array_any di)) (-180) = false.
Proof.
  apply orb_false_iff.
  split; apply Rltb_false; destruct (array_any di); simpl; lra.
Qed.

Lemma semivariogram_nomodel (scipy : option curve_fit_t) (x y v : list R)
    (nL : nat) (di : list R) (td : R) (type : string) (p0 : list R)
    (r t : list R) (xr : R) (n : nat) (di' : list R) (td' : R) :
  validate x y v di td type = Ok tt ->
  distang x y = Ok (r, t, xr, n) ->
  directions type di td = Ok (di', td') ->
  semivariogram scipy x y v nL di td type "nomodel" p0
  = Ok (Series
          (map (fun i => fst (fst (semivario r (remap_angles t) xr n v nL i
                                     td' type))) di')
          (map (fun i => snd (fst (semivario r (remap_angles t) xr n v nL i
                                     td' type))) di')
          (map (fun i => snd (semivario r (remap_angles t) xr n v nL i
                                td' type)) di'),
        match scipy with Some _ => [] | None => [NoCurveFitWarning] end).
Proof.
  intros Hv Hd Hdi. unfold semivariogram. rewrite Hv. cbn [bind].
  destruct scipy; rewrite Hd; cbn [bind]; rewrite Hdi; cbn [bind];
    unfold series_of; rewrite !map_map; reflexivity.
Qed.

(** ** Three points on a line

    The points (0,0), (1,0) and (3,0) with the values 0, 1 and 3, and two
    lags: the pairs (0,1), (0,2), (1,2) are at the distances 1, 3, 2 and
    all at the angle 0; the lag width is 3/2. *)

Lemma Rltb_yes (a b : R) : a < b -> Rltb a b = true.
Proof. apply Rltb_true. Qed.

Lemma Rltb_no (a b : R) : ~ a < b -> Rltb a b = false.
Proof. apply Rltb_false. Qed.

(** Decides the comparisons of a goal between closed numbers. *)
Ltac decide_Rltb :=
  repeat match goal with
         | |- context [Rltb ?a ?b] =>
             first [ rewrite (Rltb_yes a b) by (simpl; lra)
                   | rewrite (Rltb_no a b) by (simpl; lra) ]
         end.

Lemma dist_line (x y : list R) (op : nat * nat) :
  nth (snd op) y 0 = nth (fst op) y 0 ->
  nth (fst op) x 0 <= nth (snd op) x 0 ->
  dist x y op = nth (snd op) x 0 - nth (fst op) x 0.
Proof.
  intros Hy Hx. unfold dist. rewrite Hy.
  replace ((nth (snd op) x 0 - nth (fst op) x 0) ^ 2
           + (nth (fst op) y 0 - nth (fst op) y 0) ^ 2)
    with ((nth (snd op) x 0 - nth (fst op) x 0)
          * (nth (snd op) x 0 - nth (fst op) x 0)) by ring.
  apply sqrt_square. lra.
Qed.

Lemma angle_line (x y : list R) (op : nat * nat) :
  nth (snd op) y 0 = nth (fst op) y 0 ->
  nth (fst op) x 0 < nth (snd op) x 0 ->
  angle x y op = 0.
Proof.
  intros Hy Hx. unfold angle, arctan2. rewrite Hy.
  rewrite Rltb_yes by lra.
  replace ((nth (fst op) y 0 - nth (fst op) y 0)
           / (nth (snd op) x 0 - nth (fst op) x 0)) with 0
    by (unfold Rdiv; ring).
  apply atan_0.
Qed.

Lemma pairs_3 : pairs 3 = [(0, 1); (0, 2); (1, 2)]%nat.
Proof. reflexivity. Qed.

Lemma distang_line3 :
  distang [0; 1; 3] [0; 0; 0] = Ok ([1; 3; 2], [0; 0; 0], 3, 3%nat).
Proof.
  destruct (distang_ok [0; 1; 3] [0; 0; 0]) as (xr & Hd & Hmax);
    [simpl; lia|].
  cbn [length] in Hd, Hmax. rewrite pairs_3 in Hd, Hmax. cbn [map] in Hd, Hmax.
  rewrite !dist_line in Hd, Hmax by (simpl; lra).
  rewrite !angle_line in Hd by (simpl; lra).
  cbn [fst snd nth] in Hd, Hmax.
  replace (1 - 0) with 1 in Hd, Hmax by ring.
  replace (3 - 0) with 3 in Hd, Hmax by ring.
  replace (3 - 1) with 2 in Hd, Hmax by ring.
  unfold max_list in Hmax. cbn [fold_left] in Hmax.
  rewrite (Rmax_right 1 3) in Hmax by lra.
  rewrite (Rmax_left 3 2) in Hmax by lra.
  inversion Hmax; subst. exact Hd.
Qed.

Lemma remap_zero : remap_angles [0; 0; 0] = [0; 0; 0].
Proof.
  unfold remap_angles, Reqb. cbn [map].
  destruct (Req_dec_T 0 (-180)); [lra | reflexivity].
Qed.

Lemma in_lag_line3 :
  in_lag (3 / INR 2) 0 1 = true /\ in_lag (3 / INR 2) 0 3 = false
  /\ in_lag (3 / INR 2) 0 2 = false /\ in_lag (3 / INR 2) 1 1 = false
  /\ in_lag (3 / INR 2) 1 3 = false /\ in_lag (3 / INR 2) 1 2 = true.
Proof.
  unfold in_lag.
  rewrite (Rabs_right 1), (Rabs_right 2), (Rabs_right 3) by lra. simpl INR.
  repeat split; decide_Rltb; reflexivity.
Qed.

Lemma semivario_line3 (type : string) (di td : R) :
  semivario [1; 3; 2] [0; 0; 0] 3 3 [0; 1; 3] 2 di td type
  = match mult type di td 0 with
    | O => ([], [], [])
    | S m => ([3 / 4; 9 / 4], [1 / 2; 2], [S m; S m])
    end.
Proof.
  set (fr := fun op : nat * nat =>
               match op with
               | (0, 1)%nat => 1
               | (0, 2)%nat => 3
               | _ => 2
               end).
  set (ft := fun _ : nat * nat => 0).
  change [1; 3; 2] with (map fr (pairs 3)).
  change [0; 0; 0] with (map ft (pairs 3)).
  rewrite semivario_spec.
  destruct in_lag_line3 as (H01 & H03 & H02 & H11 & H13 & H12).
  assert (forall s, wcount fr ft (3 / INR 2) type di td s (pairs 3)
                    = match s with
                      | 0%nat | 1%nat => mult type di td 0
                      | _ => wcount fr ft (3 / INR 2) type di td s (pairs 3)
                      end) as Hc.
  { intros [|[|s]]; try reflexivity;
      unfold wcount, weight; rewrite pairs_3; cbn [map fr ft];
      rewrite ?H01, ?H03, ?H02, ?H11, ?H13, ?H12; rewrite !nsum_cons;
      cbn [nsum fold_right]; unfold ft; lia. }
  assert (wsum fr ft (sqdiff [0; 1; 3]) (3 / INR 2) type di td 0 (pairs 3)
          = INR (mult type di td 0) * 1) as Hs0.
  { unfold wsum, weight. rewrite pairs_3. cbn [map fr ft].
    rewrite H01, H03, H02. unfold Rsum, sqdiff, ft.
    cbn [fold_right fst snd nth].
    simpl INR. ring. }
  assert (wsum fr ft (sqdiff [0; 1; 3]) (3 / INR 2) type di td 1 (pairs 3)
          = INR (mult type di td 0) * 4) as Hs1.
  { unfold wsum, weight. rewrite pairs_3. cbn [map fr ft].
    rewrite H11, H13, H12. unfold Rsum, sqdiff, ft.
    cbn [fold_right fst snd nth].
    simpl INR. ring. }
  cbn [seq map]. unfold lag_value.
  rewrite (Hc 0%nat), (Hc 1%nat), Hs0, Hs1.
  destruct (mult type di td 0) as [|m]; [reflexivity|].
  cbn [Nat.eqb delete_nan numbers].
  assert (0 < INR (S m)) as Hm by (apply lt_0_INR; lia).
  rewrite mult_INR. simpl (INR 2). simpl (INR 0). simpl (INR 1).
  replace (0 * (3 / (1 + 1)) + 3 / (1 + 1) / 2) with (3 / 4) by field.
  replace (1 * (3 / (1 + 1)) + 3 / (1 + 1) / 2) with (9 / 4) by field.
  replace (INR (S m) * 1 / (INR (S m) * (1 + 1))) with (1 / 2)
    by (field; lra).
  replace (INR (S m) * 4 / (INR (S m) * (1 + 1))) with 2 by (field; lra).
  reflexivity.
Qed.

(** The driver on the three points, without a model. *)
Lemma semivariogram_line3 (scipy : option curve_fit_t) (di : list R) (td : R)
    (type : string) (p0 : list R) (di' : list R) (td' : R) :
  validate [0; 1; 3] [0; 0; 0] [0; 1; 3] di td type = Ok tt ->
  directions type di td = Ok (di', td') ->
  semivariogram scipy [0; 1; 3] [0; 0; 0] [0; 1; 3] 2 di td type "nomodel" p0
  = Ok (Series
          (map (fun i => match mult type i td' 0 with
                         | O => []
                         | S _ => [3 / 4; 9 / 4]
                         end) di')
          (map (fun i => match mult type i td' 0 with
                         | O => []
                         | S _ => [1 / 2; 2]
                         end) di')
          (map (fun i => match mult type i td' 0 with
                         | O => []
                         | S m => [S m; S m]
                         end) di'),
        match scipy with Some _ => [] | None => [NoCurveFitWarning] end).
Proof.
  intros Hv Hdi.
  rewrite (semivariogram_nomodel scipy _ _ _ _ _ _ _ _ _ _ _ _ _ _
             Hv distang_line3 Hdi).
  rewrite remap_zero.
  rewrite (map_ext _ _ (fun i => f_equal (fun s => fst (fst s))
                                   (semivario_line3 type i td'))).
  rewrite (map_ext _ _ (fun i => f_equal (fun s => snd (fst s))
                                   (semivario_line3 type i td'))).
  rewrite (map_ext _ _ (fun i => f_equal snd (semivario_line3 type i td'))).
  do 2 f_equal.
  apply f_equal3 with (f := Series); apply map_ext; intros i;
    destruct (mult type i td' 0); reflexivity.
Qed.

Lemma validate_line3 (di : list R) (td : R) (type : string) :
  (String.eqb type "directional" && any_negative di = false) -> td <= 180 ->
  validate [0; 1; 3] [0; 0; 0] [0; 1; 3] di td type = Ok tt.
Proof.
  intros H1 H2. unfold validate. cbn [length Nat.eqb negb orb].
  rewrite H1, di_range_check_false, Rltb_no by lra. reflexivity.
Qed.

(** The window of the centre 0 with the tolerance 180 leaves out the
    angle 0 itself. *)
Lemma window_0_180 :
  window (deg2rad 0) (deg2rad 180) (deg2rad (1 / 100)) 0 = false.
Proof.
  pose proof PI_RGT_0. unfold window, deg2rad. decide_Rltb. reflexivity.
Qed.

Lemma window_360_30 :
  window (deg2rad 360) (deg2rad 30) (deg2rad (1 / 100)) 0 = true.
Proof.
  pose proof PI_RGT_0. unfold window, deg2rad. decide_Rltb. reflexivity.
Qed.

Lemma window_90_180 :
  window (deg2rad 90) (deg2rad 180) (deg2rad (1 / 100)) 0 = true
  /\ window (fold_angle 90) (deg2rad 180) (deg2rad (1 / 100)) 0 = true.
Proof.
  pose proof PI_RGT_0. unfold window, fold_angle, deg2rad.
  split; decide_Rltb; reflexivity.
Qed.

Lemma mult_line3 :
  mult "omnidirectional" 0 180 0 = 1%nat
  /\ mult "directional+orientational" 0 180 0 = 0%nat
  /\ mult "directional+orientational" 360 30 0 = 1%nat
  /\ mult "directional" 90 180 0 = 2%nat.
Proof.
  destruct window_90_180 as [Ha Hm]. unfold mult.
  cbn [String.eqb Ascii.eqb Bool.eqb].
  rewrite window_0_180, window_360_30, Ha, Hm. repeat split.
Qed.

(** C2 (tolerance 180 against the omnidirectional series), on the points
    (0,0), (1,0), (3,0) with the values 0, 1, 3 and two lags.  The
    omnidirectional type returns the lags 3/4 and 9/4 with one pair each;
    the type directional+orientational with the direction 0 and the
    tolerance 180 returns no lag at all, because its window leaves out the
    angle 0 of the three pairs; the type directional with the direction 90
    and the tolerance 180 returns the same semivariances with every count
    doubled. *)
Theorem tolerance_180_series (scipy : option curve_fit_t) (p0 : list R) :
  semivariogram scipy [0; 1; 3] [0; 0; 0] [0; 1; 3] 2 [0] 180
    "omnidirectional" "nomodel" p0
  = Ok (Series [[3 / 4; 9 / 4]] [[1 / 2; 2]] [[1; 1]%nat],
        match scipy with Some _ => [] | None => [NoCurveFitWarning] end)
  /\ semivariogram scipy [0; 1; 3] [0; 0; 0] [0; 1; 3] 2 [0] 180
       "directional+orientational" "nomodel" p0
     = Ok (Series [[]] [[]] [[]],
           match scipy with Some _ => [] | None => [NoCurveFitWarning] end)
  /\ semivariogram scipy [0; 1; 3] [0; 0; 0] [0; 1; 3] 2 [90] 180
       "directional" "nomodel" p0
     = Ok (Series [[3 / 4; 9 / 4]] [[1 / 2; 2]] [[2; 2]%nat],
           match scipy with Some _ => [] | None => [NoCurveFitWarning] end).
Proof.
  destruct mult_line3 as (Ho & Hd & _ & Hf).
  split; [|split].
  - rewrite (semivariogram_line3 scipy [0] 180 "omnidirectional" p0 [0] 180).
    + cbn [map]. rewrite Ho. reflexivity.
    + apply validate_line3; [reflexivity | lra].
    + reflexivity.
  - rewrite (semivariogram_line3 scipy [0] 180 "directional+orientational"
               p0 [0] 180).
    + cbn [map]. rewrite Hd. reflexivity.
    + apply validate_line3; [reflexivity | lra].
    + reflexivity.
  - rewrite (semivariogram_line3 scipy [90] 180 "directional" p0 [90] 180).
    + cbn [map]. rewrite Hf. reflexivity.
    + apply validate_line3; [|lra].
      unfold any_negative. cbn [String.eqb Ascii.eqb Bool.eqb existsb andb].
      rewrite Rltb_no by lra. reflexivity.
    + reflexivity.
Qed.

(** C3 (directions outside [-180, 180]).  The third check of the driver
    compares the boolean [np.array(di).any()], which is 0 or 1, with 180
    and -180, so it is false for every list [di]; with the direction 360
    the driver raises nothing and returns a series. *)
Theorem direction_range_unchecked (scipy : option curve_fit_t)
    (p0 : list R) :
  (forall di,
     Rltb 180 (b2R (array_any di)) || Rltb (b2R (array_any di)) (-180)
     = false)
  /\ validate [0; 1; 3] [0; 0; 0] [0; 1; 3] [360] 30
       "directional+orientational" = Ok tt
  /\ semivariogram scipy [0; 1; 3] [0; 0; 0] [0; 1; 3] 2 [360] 30
       "directional+orientational" "nomodel" p0
     = Ok (Series [[3 / 4; 9 / 4]] [[1 / 2; 2]] [[1; 1]%nat],
           match scipy with Some _ => [] | None => [NoCurveFitWarning] end).
Proof.
  destruct mult_line3 as (_ & _ & Hd & _).
  assert (validate [0; 1; 3] [0; 0; 0] [0; 1; 3] [360] 30
            "directional+orientational" = Ok tt) as Hv
    by (apply validate_line3; [reflexivity | lra]).
  split; [exact di_range_check_false|]. split; [exact Hv|].
  rewrite (semivariogram_line3 scipy [360] 30 "directional+orientational"
             p0 [360] 30 Hv eq_refl).
  cbn [map]. rewrite Hd. reflexivity.
Qed.

(** C9 (double counting in the directional type).  In the directional
    type the test of the centre window and the test of the fold window are
    two separate [if]s: a pair in lag [s] whose angle passes both has its
    squared difference added to [g[s]] twice and [q] incremented twice.
    On the points (0,0), (1,0), (3,0) with the direction 90 and the
    tolerance 180 each lag has one pair and the count 2. *)
Theorem directional_double_count :
  (forall di td s tk d g0 u q,
     (s < length g0)%nat ->
     window (deg2rad di) (deg2rad td) (deg2rad (1 / 100)) tk = true ->
     window (fold_angle di) (deg2rad td) (deg2rad (1 / 100)) tk = true ->
     dispatch "directional" di td s tk d (upd g0 s (Some u), q)
     = (upd g0 s (Some (u + d + d)), S (S q)))
  /\ (forall scipy p0,
        semivariogram scipy [0; 1; 3] [0; 0; 0] [0; 1; 3] 2 [90] 180
          "directional" "nomodel" p0
        = Ok (Series [[3 / 4; 9 / 4]] [[1 / 2; 2]] [[2; 2]%nat],
              match scipy with Some _ => [] | None => [NoCurveFitWarning] end))
  /\ lag_count [0; 1; 3] [0; 0; 0] (3 / INR 2) 0 = 1%nat
  /\ lag_count [0; 1; 3] [0; 0; 0] (3 / INR 2) 1 = 1%nat.
Proof.
  split; [|split; [|split]].
  - intros di td s tk d g0 u q Hs Ha Hm.
    rewrite dispatch_spec by assumption. unfold mult.
    cbn [String.eqb Ascii.eqb Bool.eqb]. rewrite Ha, Hm.
    cbn [b2n Nat.add]. simpl INR. close_state.
  - intros scipy p0.
    rewrite (semivariogram_line3 scipy [90] 180 "directional" p0 [90] 180).
    + destruct mult_line3 as (_ & _ & _ & Hf). cbn [map]. rewrite Hf.
      reflexivity.
    + apply validate_line3; [|lra].
      unfold any_negative. cbn [String.eqb Ascii.eqb Bool.eqb existsb andb].
      rewrite Rltb_no by lra. reflexivity.
    + reflexivity.
  - unfold lag_count, lag_pairs. cbn [length]. rewrite pairs_3.
    cbn [filter]. rewrite !dist_line by (simpl; lra). cbn [fst snd nth].
    unfold strictly_inside. simpl INR. decide_Rltb. reflexivity.
  - unfold lag_count, lag_pairs. cbn [length]. rewrite pairs_3.
    cbn [filter]. rewrite !dist_line by (simpl; lra). cbn [fst snd nth].
    unfold strictly_inside. simpl INR. decide_Rltb. reflexivity.
Qed.

(** ** The angles after [np.where(t==-180, 180, t)] *)

Lemma remap_angles_id (t : list R) :
  (forall a, In a t -> - PI <= a <= PI) -> remap_angles t = t.
Proof.
  intros H. unfold remap_angles. rewrite <- (map_id t) at 2.
  apply map_ext_in. intros a Ha. apply H in Ha.
  pose proof PI_4. unfold Reqb. destruct (Req_dec_T a (-180)); [lra|].
  reflexivity.
Qed.

(** On real numbers [arctan2] never returns [-PI]: the driver's angles are
    in (-PI, PI] whatever the remapping does.  On doubles it does, for
    [dy = -0.0] and [dx < 0]. *)
Lemma arctan2_range (dy dx : R) : - PI < arctan2 dy dx <= PI.
Proof.
  pose proof PI_RGT_0 as Hpi. unfold arctan2, Rltb.
  destruct (Rlt_dec 0 dx) as [Hx|Hx].
  - pose proof (atan_bound (dy / dx)). lra.
  - destruct (Rlt_dec dx 0) as [Hx'|Hx'].
    + pose proof (atan_bound (dy / dx)) as Hb.
      assert (/ dx < 0) as Hinv by (apply Rinv_lt_0_compat; assumption).
      destruct (Rlt_dec dy 0) as [Hy|Hy].
      * assert (0 < dy / dx) as Hq by (unfold Rdiv; nra).
        apply atan_increasing in Hq. rewrite atan_0 in Hq. lra.
      * destruct (Req_dec dy 0) as [->|Hy0].
        -- unfold Rdiv. rewrite Rmult_0_l, atan_0. lra.
        -- assert (dy / dx < 0) as Hq by (unfold Rdiv; nra).
           apply atan_increasing in Hq. rewrite atan_0 in Hq. lra.
    + destruct (Rlt_dec 0 dy); [lra|]. destruct (Rlt_dec dy 0); lra.
Qed.

(** C6 (the remapping of the angle -180 degrees), on doubles.  The angles
    are in radians and the remapping compares them with the number -180.
    For the points (1,0) and (0,-0.0) the differences are [dx = -1] and
    [dy = -0.0], [np.arctan2] returns [-pi], which is [np.deg2rad(-180)],
    and the remapping leaves it: the angle handed to the binner is -180
    degrees and not +180 degrees.  So it is for every negative [dx], and
    the remapping changes no angle other than the number -180. *)
Theorem remap_misses_minus_pi (atan2 : float -> float -> float)
    (pow2 : float -> float) :
  (exists r t xr,
     Doubles.distang atan2 pow2 [1; 0]%float [0; -0]%float
     = Ok (r, t, xr, 2%nat)
     /\ t = [Doubles.deg2rad (-180)]
     /\ Doubles.remap_angles t = [Doubles.deg2rad (-180)])
  /\ Doubles.deg2rad (-180) = (- Doubles.pi)%float
  /\ (Doubles.deg2rad (-180) <? Doubles.deg2rad (-180))%float = false
  /\ (Doubles.deg2rad (-180) =? Doubles.deg2rad 180)%float = false
  /\ (forall dx, (dx <? 0)%float = true ->
        Doubles.arctan2 atan2 (-0) dx = Doubles.deg2rad (-180)
        /\ Doubles.remap_angles [Doubles.arctan2 atan2 (-0) dx]
           = [Doubles.deg2rad (-180)])
  /\ (forall a, (a =? -180)%float = false -> Doubles.remap_angles [a] = [a]).
Proof.
  assert (forall dx, (dx <? 0)%float = true ->
            Doubles.arctan2 atan2 (-0) dx = Doubles.deg2rad (-180)) as Hat.
  { intros dx Hdx. unfold Doubles.arctan2.
    change (classify (-0)) with NZero. cbv iota. rewrite Hdx.
    vm_compute. reflexivity. }
  split; [|split; [|split; [|split; [|split]]]].
  - unfold Doubles.distang.
    change (length [1; 0]%float) with 2%nat.
    cbn [Nat.sub Nat.mul Nat.add Nat.div Nat.divmod fst Doubles.zeros repeat].
    unfold Doubles.distang_loops, range.
    cbn [Nat.sub Nat.add seq fold_left Doubles.distang_body nth upd].
    replace (Doubles.arctan2 atan2 (-0 - 0) (0 - 1))
      with (Doubles.deg2rad (-180))
      by (symmetry; apply (Hat (0 - 1)%float); vm_compute; reflexivity).
    cbn [Doubles.max_list fold_left]. do 3 eexists.
    split; [reflexivity|]. split; [reflexivity|].
    vm_compute. reflexivity.
  - vm_compute. reflexivity.
  - vm_compute. reflexivity.
  - vm_compute. reflexivity.
  - intros dx Hdx. rewrite (Hat dx Hdx). split; [reflexivity|].
    vm_compute. reflexivity.
  - intros a Ha. unfold Doubles.remap_angles. cbn [map]. now rewrite Ha.
Qed.

(** ** The model library against the closed forms *)

Lemma ln_arg (sill c0 ce : R) :
  - (sill * (95 / 100) - c0) / ce + 1 = 1 - (95 / 100 * sill - c0) / ce.
Proof. unfold Rdiv. ring. Qed.

Lemma gaurange_abs (sill c0 ce a0 : R) :
  gaurange sill c0 ce a0 = spec_gaurange sill c0 ce (Rabs a0).
Proof.
  unfold gaurange, spec_gaurange. rewrite ln_arg.
  set (X := ln (1 - (95 / 100 * sill - c0) / ce)).
  replace (- a0 ^ 2 * X) with (Rsqr a0 * - X) by (unfold Rsqr; ring).
  destruct (Rle_dec 0 (- X)) as [H|H].
  - rewrite sqrt_mult_alt by apply Rle_0_sqr. now rewrite sqrt_Rsqr_abs.
  - assert (- X < 0) as H' by lra.
    rewrite (sqrt_neg_0 (- X)) by lra.
    rewrite sqrt_neg_0; [ring|].
    pose proof (Rle_0_sqr a0). nra.
Qed.

Lemma sphvar_abs (h c0 ce a0 : R) :
  sphvar h c0 ce a0 = spec_sphvar (Rabs h) c0 ce a0.
Proof.
  unfold sphvar, spec_sphvar. rewrite Rabs_Rabsolu.
  assert (Rleb 0 (Rabs h) = true) as E.
  { unfold Rleb. destruct (Rle_dec 0 (Rabs h)) as [|H]; [reflexivity|].
    exfalso. apply H, Rabs_pos. }
  rewrite E. cbn [andb]. destruct (Rleb (Rabs h) a0); [|reflexivity].
  generalize (Rabs h / a0). intros w. field.
Qed.

(** C8 (model library), as amended.  The exponential and gaussian models,
    the exponential range and the spherical range are the closed forms of
    the specification; the spherical model is its closed form at [|h|], and
    the gaussian range is its closed form at [|a0|] (so both are the closed
    forms themselves for [h >= 0] and [a0 >= 0]). *)
Theorem model_closed_forms (h sill c0 ce a0 : R) :
  expvar h c0 ce a0 = spec_expvar h c0 ce a0
  /\ exprange sill c0 ce a0 = spec_exprange sill c0 ce a0
  /\ sphvar h c0 ce a0 = spec_sphvar (Rabs h) c0 ce a0
  /\ sphrange sill c0 ce a0 = a0
  /\ gauvar h c0 ce a0 = spec_gauvar h c0 ce a0
  /\ gaurange sill c0 ce a0 = spec_gaurange sill c0 ce (Rabs a0)
  /\ (0 <= h -> sphvar h c0 ce a0 = spec_sphvar h c0 ce a0)
  /\ (0 <= a0 -> gaurange sill c0 ce a0 = spec_gaurange sill c0 ce a0).
Proof.
  repeat split.
  - unfold expvar, spec_expvar.
    replace (- Rabs h / a0) with (- (Rabs h / a0)) by (unfold Rdiv; ring).
    reflexivity.
  - unfold exprange, spec_exprange. rewrite ln_arg. ring.
  - apply sphvar_abs.
  - unfold gauvar, spec_gauvar.
    replace (- h ^ 2 / a0 ^ 2) with (- (h ^ 2 / a0 ^ 2))
      by (unfold Rdiv; ring).
    reflexivity.
  - apply gaurange_abs.
  - intros H. rewrite sphvar_abs, Rabs_right by lra. reflexivity.
  - intros H. rewrite gaurange_abs, Rabs_right by lra. reflexivity.
Qed.

(** C8 as stated fails: at [h = -1], [a0 = 2] the spherical model is
    [11/16] and its closed form [-11/16]; at [a0 = -1] the gaussian range
    is [sqrt (ln 2)] and its closed form [- sqrt (ln 2)]. *)
Lemma model_closed_forms_counterexample :
  (exists h c0 ce a0,
     ce <> 0 /\ a0 <> 0 /\ sphvar h c0 ce a0 <> spec_sphvar h c0 ce a0)
  /\ (exists sill c0 ce a0,
        ce <> 0 /\ a0 <> 0
        /\ gaurange sill c0 ce a0 <> spec_gaurange sill c0 ce a0).
Proof.
  split.
  - exists (-1), 0, 1, 2. split; [lra|]. split; [lra|].
    unfold sphvar, spec_sphvar, Rleb.
    rewrite (Rabs_left (-1)) by lra.
    destruct (Rle_dec 0 (- -1)); [|lra].
    destruct (Rle_dec (- -1) 2); [|lra]. cbn [andb]. lra.
  - exists (10 / 19), 0, 1, (-1). split; [lra|]. split; [lra|].
    rewrite gaurange_abs. unfold spec_gaurange.
    rewrite (Rabs_left (-1)) by lra.
    replace (1 - (95 / 100 * (10 / 19) - 0) / 1) with (/ 2) by field.
    rewrite ln_Rinv by lra.
    assert (0 < ln 2) as H2 by (rewrite <- ln_1; apply ln_increasing; lra).
    assert (0 < sqrt (- - ln 2)) as Hs by (apply sqrt_lt_R0; lra).
    lra.
Qed.

(** ** Filling a matrix cell by cell *)

Lemma upd_same {A : Type} (l : list A) (k : nat) (d : A) :
  (k < length l)%nat -> upd l k (nth k l d) = l.
Proof.
  revert k; induction l as [|a l IH]; intros [|k] Hk; simpl in *;
    try lia; auto.
  rewrite IH by lia. reflexivity.
Qed.

Section Fill.

Context {A : Type} (init : A).

Lemma fill_row (m : nat) (F : nat -> option A) :
  forall (M : list (list A)) (j : nat) (pre : list A),
    (j < length M)%nat -> nth j M [] = pre ++ repeat init m ->
    fold_left (fun M i => wr (F i) M j i) (seq (length pre) m) M
    = upd M j (pre ++ map (fun i => cell_value init (F i))
                        (seq (length pre) m)).
Proof.
  induction m as [|m IH]; intros M j pre Hj Hrow.
  - cbn [seq fold_left map repeat] in *. rewrite app_nil_r in *.
    rewrite <- Hrow. symmetry. apply upd_same, Hj.
  - cbn [seq fold_left map]. cbn [repeat] in Hrow.
    assert (wr (F (length pre)) M j (length pre)
            = upd M j ((pre ++ [cell_value init (F (length pre))])
                       ++ repeat init m)) as Hstep.
    { rewrite <- app_assoc. cbn [app].
      destruct (F (length pre)) as [a|]; cbn [wr cell_value].
      - unfold upd2. rewrite Hrow, upd_app_at. reflexivity.
      - rewrite <- Hrow. symmetry. apply upd_same, Hj. }
    rewrite Hstep.
    replace (S (length pre))
      with (length (pre ++ [cell_value init (F (length pre))]))
      by (rewrite length_app; simpl; lia).
    rewrite IH.
    + rewrite upd_upd, <- app_assoc. reflexivity.
    + now rewrite upd_length.
    + now rewrite nth_upd_same.
Qed.

Lemma fill_rows (nd : nat) (F : nat -> nat -> option A) (m : nat) :
  forall pre : list (list A),
    fold_left
      (fun M j => fold_left (fun M i => wr (F j i) M j i) (seq 0 nd) M)
      (seq (length pre) m) (pre ++ repeat (repeat init nd) m)
    = pre ++ map (fun j => map (fun i => cell_value init (F j i))
                             (seq 0 nd))
               (seq (length pre) m).
Proof.
  induction m as [|m IH]; intros pre.
  - reflexivity.
  - cbn [seq fold_left map repeat].
    rewrite (fill_row nd (F (length pre)) _ (length pre) []).
    + cbn [length app]. rewrite upd_app_at.
      replace (S (length pre))
        with (length (pre ++ [map (fun i => cell_value init
                                     (F (length pre) i)) (seq 0 nd)]))
        by (rewrite length_app; simpl; lia).
      replace (pre ++ map (fun i => cell_value init (F (length pre) i))
                        (seq 0 nd) :: repeat (repeat init nd) m)
        with ((pre ++ [map (fun i => cell_value init (F (length pre) i))
                         (seq 0 nd)]) ++ repeat (repeat init nd) m)
        by (now rewrite <- app_assoc).
      rewrite IH, <- app_assoc. reflexivity.
    + rewrite length_app. simpl. lia.
    + now rewrite nth_middle.
Qed.

Lemma fill_matrix (nf nd : nat) (F : nat -> nat -> option A) :
  fold_left
    (fun M j => fold_left (fun M i => wr (F j i) M j i) (seq 0 nd) M)
    (seq 0 nf) (repeat (repeat init nd) nf)
  = map (fun j => map (fun i => cell_value init (F j i)) (seq 0 nd))
      (seq 0 nf).
Proof. apply (fill_rows nd F nf []). Qed.

End Fill.

Lemma proj_fold_left {S T X : Type} (p : S -> T) (f : S -> X -> S)
    (g : T -> X -> T) :
  (forall s a, p (f s a) = g (p s) a) ->
  forall l s, p (fold_left f l s) = fold_left g l (p s).
Proof.
  intros H l. induction l as [|a l IH]; intros s; simpl; auto.
  now rewrite IH, H.
Qed.

Lemma fold_left_ext {S X : Type} (f g : S -> X -> S) (l : list X) :
  (forall s a, In a l -> f s a = g s a) ->
  forall s, fold_left f l s = fold_left g l s.
Proof.
  induction l as [|a l IH]; intros H s; simpl; auto.
  rewrite H by (now left). apply IH. intros; apply H; now right.
Qed.

Lemma for_each_ok {X S : Type} (l : list X) (body : X -> S -> result S)
    (f : S -> X -> S) :
  (forall a st, In a l -> body a st = Ok (f st a)) ->
  forall st, for_each l body st = Ok (fold_left f l st).
Proof.
  induction l as [|a l IH]; intros H st; simpl; auto.
  rewrite H by (now left). cbn [bind]. apply IH. intros; apply H; now right.
Qed.

Lemma fold_left_log {X : Type} (W : X -> list diag) (l : list X)
    (log : list diag) :
  fold_left (fun log a => log ++ W a) l log = log ++ flat_map W l.
Proof.
  revert log; induction l as [|a l IH]; intros log; simpl.
  - now rewrite app_nil_r.
  - now rewrite IH, app_assoc.
Qed.

(** ** The fitting loops *)

Lemma fit_step_ok (curve_fit : curve_fit_t)
    (func : list (R -> R -> R -> R -> R)) (h g : list (list R))
    (di p0 : list R) (j i : nat) (st : fit_state) :
  recoverable (outcome curve_fit func h g p0 j i) = true ->
  fit_step curve_fit func h g di p0 j i st
  = Ok (cell_step di j i (outcome curve_fit func h g p0 j i) st).
Proof.
  unfold fit_step, outcome, cell_step, fit_failed.
  destruct (curve_fit (nth j func expvar) (nth i h []) (nth i g []) p0)
    as [p [m|s]|[]]; cbn; intros H; try discriminate;
    try rewrite app_nil_r; destruct st; reflexivity.
Qed.

Lemma fit_state_eta (st : fit_state) :
  st = mkFit (f_popt st) (f_pcov st) (f_vark st) (f_log st).
Proof. destruct st; reflexivity. Qed.

Section FitLoops.

Variables (curve_fit : curve_fit_t)
          (func : list (R -> R -> R -> R -> R)) (h g : list (list R))
          (di p0 : list R).

Hypothesis all_recoverable :
  forall j i, (j < length func)%nat -> (i < length di)%nat ->
              recoverable (outcome curve_fit func h g p0 j i) = true.

Lemma fit_loops_cells (st : fit_state) :
  fit_loops curve_fit func h g di p0 st
  = Ok (fold_left
          (fun st j =>
             fold_left
               (fun st i =>
                  cell_step di j i (outcome curve_fit func h g p0 j i) st)
               (seq 0 (length di)) st)
          (seq 0 (length func)) st).
Proof.
  unfold fit_loops, range. rewrite !Nat.sub_0_r.
  apply for_each_ok. intros j st' Hj. apply for_each_ok.
  intros i st'' Hi. apply in_seq in Hj, Hi.
  apply fit_step_ok, all_recoverable; lia.
Qed.

Lemma fit_loops_spec (log : list diag) :
  fit_loops curve_fit func h g di p0 (fit_init (length func) (length di) log)
  = Ok (mkFit
          (fitted_popt (outcome curve_fit func h g p0)
             (length func) (length di))
          (fitted_pcov (outcome curve_fit func h g p0)
             (length func) (length di))
          (fitted_vark (outcome curve_fit func h g p0)
             (length func) (length di))
          (log ++ fitted_log di (outcome curve_fit func h g p0)
                    (length func) (length di))).
Proof.
  rewrite fit_loops_cells. f_equal.
  set (F := outcome curve_fit func h g p0).
  set (final := fold_left _ _ _). rewrite (fit_state_eta final).
  unfold final. f_equal.
  - rewrite (proj_fold_left f_popt _
               (fun M j => fold_left
                  (fun M i => wr (popt_cell (F j i)) M j i)
                  (seq 0 (length di)) M)).
    + apply fill_matrix.
    + intros s j. now apply proj_fold_left.
  - rewrite (proj_fold_left f_pcov _
               (fun M j => fold_left
                  (fun M i => wr (pcov_cell (F j i)) M j i)
                  (seq 0 (length di)) M)).
    + apply fill_matrix.
    + intros s j. now apply proj_fold_left.
  - rewrite (proj_fold_left f_vark _
               (fun M j => fold_left
                  (fun M i => wr (Some (vark_cell (F j i))) M j i)
                  (seq 0 (length di)) M)).
    + apply (fill_matrix (Fin 0) (length func) (length di)
               (fun j i => Some (vark_cell (F j i)))).
    + intros s j. now apply proj_fold_left.
  - rewrite (proj_fold_left f_log _
               (fun l j => l ++ flat_map (fun i => warn_cell di j i (F j i))
                                  (seq 0 (length di)))).
    + apply fold_left_log.
    + intros s j.
      rewrite (proj_fold_left f_log _
                 (fun l i => l ++ warn_cell di j i (F j i)));
        [apply fold_left_log | reflexivity].
Qed.

End FitLoops.

(** ** [np.argmin] *)

Lemma score_ltb_irrefl (a : score) : score_ltb a a = false.
Proof. destruct a; simpl; auto. apply Rltb_false. lra. Qed.

Lemma score_ltb_trans (a b c : score) :
  score_ltb a b = true -> score_ltb b c = true -> score_ltb a c = true.
Proof.
  destruct a, b, c; simpl; auto; try discriminate.
  rewrite !Rltb_true. lra.
Qed.

Lemma argmin_from_spec (whole : list score) :
  forall l pre best bv,
    whole = pre ++ l -> (best < length pre)%nat ->
    nth best whole Inf = bv ->
    (forall j, (j < length pre)%nat ->
               score_ltb (nth j whole Inf) bv = false) ->
    (argmin_from best bv (length pre) l < length whole)%nat
    /\ forall j, (j < length whole)%nat ->
         score_ltb (nth j whole Inf)
           (nth (argmin_from best bv (length pre) l) whole Inf) = false.
Proof.
  induction l as [|a l IH]; intros pre best bv E Hb Hbv Hmin.
  - rewrite app_nil_r in E. subst whole. cbn [argmin_from].
    split; [assumption|]. intros j Hj. rewrite Hbv. now apply Hmin.
  - assert (whole = (pre ++ [a]) ++ l) as E'
      by (now rewrite <- app_assoc).
    assert (nth (length pre) whole Inf = a) as Ha
      by (rewrite E; apply nth_middle).
    assert (length (pre ++ [a]) = S (length pre)) as Hlen
      by (rewrite length_app; simpl; lia).
    cbn [argmin_from]. rewrite <- Hlen.
    destruct (score_ltb a bv) eqn:Hlt.
    + apply IH; auto; [lia|]. intros j Hj.
      destruct (Nat.eq_dec j (length pre)) as [->|Hne].
      * rewrite Ha. apply score_ltb_irrefl.
      * destruct (score_ltb (nth j whole Inf) a) eqn:Hja; [|reflexivity].
        rewrite <- (Hmin j) by lia. symmetry.
        now apply score_ltb_trans with a.
    + apply IH; auto; [lia|]. intros j Hj.
      destruct (Nat.eq_dec j (length pre)) as [->|Hne].
      * now rewrite Ha.
      * apply Hmin. lia.
Qed.

Lemma argmin_spec (l : list score) :
  l <> [] ->
  (argmin l < length l)%nat
  /\ forall j, (j < length l)%nat ->
       score_ltb (nth j l Inf) (nth (argmin l) l Inf) = false.
Proof.
  destruct l as [|a l]; [congruence|]. intros _.
  apply (argmin_from_spec (a :: l) l [a] 0%nat a); auto.
  intros j Hj. simpl in Hj. replace j with 0%nat by lia.
  apply score_ltb_irrefl.
Qed.

Lemma nth_map_seq {A : Type} (f : nat -> A) (n k : nat) (d : A) :
  (k < n)%nat -> nth k (map f (seq 0 n)) d = f k.
Proof.
  intros H. rewrite (nth_indep _ d (f 0%nat))
    by (now rewrite length_map, length_seq).
  rewrite map_nth, seq_nth by assumption. reflexivity.
Qed.


Lemma mean_score_inf (row : list score) :
  mean_score row = Inf <-> In Inf row.
Proof.
  unfold mean_score.
  assert (finite_part row = None <-> In Inf row) as H.
  { induction row as [|[v|] row IH]; cbn [finite_part In].
    - split; [discriminate | tauto].
    - destruct (finite_part row); cbn [option_map].
      + split; [discriminate|]. intros [C|C]; [discriminate|].
        apply IH in C. discriminate.
      + split; [intros _; right; now apply IH | reflexivity].
    - split; auto. }
  destruct (finite_part row); split; try discriminate; try reflexivity.
  - intros C. apply H in C. discriminate.
  - intros _. now apply H.
Qed.


(** ** The choice of the model *)

Lemma fit_and_select_spec (curve_fit : curve_fit_t)
    (func range_ : list (R -> R -> R -> R -> R)) (h g : list (list R))
    (c : list (list nat)) (di p0 : list R) (log : list diag) :
  (forall j i, (j < length func)%nat -> (i < length di)%nat ->
               recoverable (outcome curve_fit func h g p0 j i) = true) ->
  fit_and_select curve_fit func range_ h g c di p0 log
  = Ok (Fitted
          (nuggets (fitted_popt (outcome curve_fit func h g p0)
                      (length func) (length di))
             (argmin (map mean_score
                        (fitted_vark (outcome curve_fit func h g p0)
                           (length func) (length di)))))
          (sills (fitted_popt (outcome curve_fit func h g p0)
                    (length func) (length di))
             (argmin (map mean_score
                        (fitted_vark (outcome curve_fit func h g p0)
                           (length func) (length di)))))
          (ranges range_
             (fitted_popt (outcome curve_fit func h g p0)
                (length func) (length di))
             (argmin (map mean_score
                        (fitted_vark (outcome curve_fit func h g p0)
                           (length func) (length di)))))
          (nth (argmin (map mean_score
                          (fitted_vark (outcome curve_fit func h g p0)
                             (length func) (length di))))
             (fitted_vark (outcome curve_fit func h g p0)
                (length func) (length di)) [])
          (nth (argmin (map mean_score
                          (fitted_vark (outcome curve_fit func h g p0)
                             (length func) (length di))))
             (fitted_pcov (outcome curve_fit func h g p0)
                (length func) (length di)) [])
          h g c,
        log ++ fitted_log di (outcome curve_fit func h g p0)
                 (length func) (length di)).
Proof.
  intros H. unfold fit_and_select.
  fold (fit_init (length func) (length di) log).
  rewrite fit_loops_spec by assumption. reflexivity.
Qed.

Lemma semivariogram_fit (curve_fit : curve_fit_t) (x y v : list R)
    (nL : nat) (di : list R) (td : R) (type model : string) (p0 : list R)
    (r t : list R) (xr : R) (n : nat) (di' : list R) (td' : R)
    (func range_ : list (R -> R -> R -> R -> R)) :
  validate x y v di td type = Ok tt ->
  distang x y = Ok (r, t, xr, n) ->
  directions type di td = Ok (di', td') ->
  model_functions model = Ok (Some (func, range_)) ->
  semivariogram (Some curve_fit) x y v nL di td type model p0
  = fit_and_select curve_fit func range_
      (map (fun i => fst (fst (semivario r (remap_angles t) xr n v nL i
                                 td' type))) di')
      (map (fun i => snd (fst (semivario r (remap_angles t) xr n v nL i
                                 td' type))) di')
      (map (fun i => snd (semivario r (remap_angles t) xr n v nL i
                            td' type)) di')
      di' p0 [].
Proof.
  intros Hv Hd Hdi Hm. unfold semivariogram. rewrite Hv. cbn [bind].
  rewrite Hd. cbn [bind]. rewrite Hdi. cbn [bind]. rewrite Hm. cbn [bind].
  unfold series_of. rewrite !map_map. reflexivity.
Qed.

(** C4 (fitting failures), as amended.  When no call of [curve_fit] raises
    an exception other than [AttributeError], the fitting loops and the
    part of the driver that runs them return; the score of every attempt
    (model, direction) is the one of its own outcome; and an attempt that
    did not return a covariance matrix has the score [+inf] and its
    warning in what is printed. *)
Theorem fit_failures_recovered (curve_fit : curve_fit_t)
    (func range_ : list (R -> R -> R -> R -> R)) (h g : list (list R))
    (c : list (list nat)) (di p0 : list R) (log : list diag) :
  (forall j i, (j < length func)%nat -> (i < length di)%nat ->
               recoverable (outcome curve_fit func h g p0 j i) = true) ->
  exists st out,
    fit_loops curve_fit func h g di p0
      (fit_init (length func) (length di) log) = Ok st
    /\ fit_and_select curve_fit func range_ h g c di p0 log
       = Ok (out, f_log st)
    /\ forall j i, (j < length func)%nat -> (i < length di)%nat ->
         nth i (nth j (f_vark st) []) (Fin 0)
         = vark_cell (outcome curve_fit func h g p0 j i)
         /\ ((forall p m, outcome curve_fit func h g p0 j i
                          <> CFReturn p (CovMatrix m)) ->
             nth i (nth j (f_vark st) []) (Fin 0) = Inf
             /\ In (FitWarning (nth j subtitles EmptyString) (nth i di 0))
                  (f_log st)).
Proof.
  intros H. eexists. eexists.
  split; [apply fit_loops_spec; assumption|].
  split; [rewrite fit_and_select_spec by assumption; reflexivity|].
  intros j i Hj Hi. cbn [f_vark f_log]. unfold fitted_vark.
  rewrite nth_map_seq, nth_map_seq by assumption.
  split; [reflexivity|]. intros Hfail.
  assert (vark_cell (outcome curve_fit func h g p0 j i) = Inf
          /\ warn_cell di j i (outcome curve_fit func h g p0 j i)
             = [FitWarning (nth j subtitles EmptyString) (nth i di 0)])
    as [Hv Hw].
  { destruct (outcome curve_fit func h g p0 j i) as [p [m|s]|e] eqn:E;
      [exfalso; now apply (Hfail p m) | split; reflexivity
       | split; reflexivity]. }
  split; [exact Hv|]. apply in_or_app. right. unfold fitted_log.
  apply in_flat_map. exists j. split; [apply in_seq; lia|].
  apply in_flat_map. exists i. split; [apply in_seq; lia|].
  rewrite Hw. now left.
Qed.

(** The theorem for one model and one direction, with a [curve_fit] that
    returns no covariance matrix. *)
Lemma fit_failures_recovered_witness :
  (forall j i, (j < length [expvar])%nat -> (i < length [0])%nat ->
     recoverable (outcome curve_fit_no_cov [expvar] [[3 / 4; 9 / 4]]
                    [[1 / 2; 2]] [1 / 2; 1 / 2; 100] j i) = true)
  /\ exists st out,
       fit_loops curve_fit_no_cov [expvar] [[3 / 4; 9 / 4]] [[1 / 2; 2]]
         [0] [1 / 2; 1 / 2; 100]
         (fit_init (length [expvar]) (length [0]) []) = Ok st
       /\ fit_and_select curve_fit_no_cov [expvar] [exprange]
            [[3 / 4; 9 / 4]] [[1 / 2; 2]] [[1; 1]%nat] [0]
            [1 / 2; 1 / 2; 100] []
          = Ok (out, f_log st)
       /\ forall j i, (j < length [expvar])%nat -> (i < length [0])%nat ->
            nth i (nth j (f_vark st) []) (Fin 0)
            = vark_cell (outcome curve_fit_no_cov [expvar] [[3 / 4; 9 / 4]]
                           [[1 / 2; 2]] [1 / 2; 1 / 2; 100] j i)
            /\ ((forall p m,
                   outcome curve_fit_no_cov [expvar] [[3 / 4; 9 / 4]]
                     [[1 / 2; 2]] [1 / 2; 1 / 2; 100] j i
                   <> CFReturn p (CovMatrix m)) ->
                nth i (nth j (f_vark st) []) (Fin 0) = Inf
                /\ In (FitWarning (nth j subtitles EmptyString)
                         (nth i [0] 0))
                     (f_log st)).
Proof.
  split; [intros; reflexivity|].
  apply (fit_failures_recovered curve_fit_no_cov [expvar] [exprange]
           [[3 / 4; 9 / 4]] [[1 / 2; 2]] [[1; 1]%nat] [0]
           [1 / 2; 1 / 2; 100] []).
  intros; reflexivity.
Defined.

(** C4 as stated fails: when [curve_fit] raises [RuntimeError] (its
    answer when the optimizer does not converge), the exception leaves the
    [try] block, which handles [AttributeError] only, and the driver. *)
Lemma fit_failure_aborts :
  semivariogram (Some curve_fit_not_converging) [0; 1; 3] [0; 0; 0]
    [0; 1; 3] 2 [0] 180 "omnidirectional" "exponential" [1 / 2; 1 / 2; 100]
  = Raise (RuntimeError "Optimal parameters not found").
Proof.
  erewrite semivariogram_fit;
    [ | apply validate_line3; [reflexivity | lra]
      | apply distang_line3
      | reflexivity
      | reflexivity ].
  reflexivity.
Qed.

Lemma nuggets_fitted (F : nat -> nat -> cf_outcome) (nf nd ind : nat) :
  (ind < nf)%nat ->
  nuggets (fitted_popt F nf nd) ind
  = map (fun i => nugget_of (fitted_params F ind i)) (seq 0 nd)
  /\ sills (fitted_popt F nf nd) ind
     = map (fun i => sill_of (fitted_params F ind i)) (seq 0 nd)
  /\ forall range_,
       ranges range_ (fitted_popt F nf nd) ind
       = map (fun i => range_of (nth ind range_ sphrange)
                         (fitted_params F ind i)) (seq 0 nd).
Proof.
  intros H. unfold nuggets, sills, ranges, fitted_popt.
  rewrite nth_map_seq by assumption.
  split; [|split; [|intros range_]]; rewrite map_map; reflexivity.
Qed.






(** * Further properties of the code *)

(** ** What the driver raises, and when *)

Lemma any_negative_true (di : list R) :
  any_negative di = true <-> exists d, In d di /\ d < 0.
Proof.
  unfold any_negative. rewrite existsb_exists.
  split; intros (d & H1 & H2); exists d; split; auto; now apply Rltb_true.
Qed.

Lemma validate_ok_iff (x y v di : list R) (td : R) (type : string) :
  validate x y v di td type = Ok tt
  <-> length x = length y /\ length y = length v
      /\ (type = "directional"%string -> forall d, In d di -> 0 <= d)
      /\ td <= 180.
Proof.
  unfold validate.
  destruct (Nat.eqb (length x) (length y)) eqn:E1;
    [apply Nat.eqb_eq in E1 | apply Nat.eqb_neq in E1];
    cbn [negb orb]; [|split; [discriminate | tauto]].
  destruct (Nat.eqb (length y) (length v)) eqn:E2;
    [apply Nat.eqb_eq in E2 | apply Nat.eqb_neq in E2];
    cbn [negb]; [|split; [discriminate | tauto]].
  rewrite di_range_check_false.
  destruct (String.eqb type "directional") eqn:Et;
    [apply String.eqb_eq in Et | apply String.eqb_neq in Et]; cbn [andb].
  - destruct (any_negative di) eqn:En.
    + split; [discriminate|]. intros (_ & _ & H & _).
      apply any_negative_true in En as (d & Hd & Hneg).
      specialize (H Et d Hd). lra.
    + assert (forall d, In d di -> 0 <= d) as Hpos.
      { intros d Hd. destruct (Rle_dec 0 d); [assumption|].
        assert (any_negative di = true) as C
          by (apply any_negative_true; exists d; split; [assumption | lra]).
        congruence. }
      destruct (Rltb 180 td) eqn:Etd;
        [apply Rltb_true in Etd | apply Rltb_false in Etd].
      * split; [discriminate | intros (_ & _ & _ & H); lra].
      * split; [intros _ | reflexivity]. repeat split; auto; lra.
  - destruct (Rltb 180 td) eqn:Etd;
      [apply Rltb_true in Etd | apply Rltb_false in Etd].
    + split; [discriminate | intros (_ & _ & _ & H); lra].
    + split; [intros _ | reflexivity].
      repeat split; auto; [congruence | lra].
Qed.

(** X1.  Arrays of different lengths: the driver raises its first
    [TypeError], whatever the other arguments are. *)
Theorem shape_mismatch_raises (scipy : option curve_fit_t) (x y v : list R)
    (nL : nat) (di : list R) (td : R) (type model : string) (p0 : list R) :
  length x <> length y \/ length y <> length v ->
  semivariogram scipy x y v nL di td type model p0
  = Raise (TypeError "x, y and v must have the same dimensions!").
Proof.
  intros H. unfold semivariogram, validate.
  assert (negb (Nat.eqb (length x) (length y))
          || negb (Nat.eqb (length y) (length v)) = true) as E.
  { apply orb_true_iff.
    destruct H as [H|H]; [left | right]; apply negb_true_iff;
      now apply Nat.eqb_neq. }
  rewrite E. reflexivity.
Qed.

Lemma shape_mismatch_raises_witness :
  (length [0; 1] <> length [0] \/ length [0] <> length [0; 1])
  /\ semivariogram None [0; 1] [0] [0; 1] 2 [0] 180 "omnidirectional"
       "nomodel" []
     = Raise (TypeError "x, y and v must have the same dimensions!").
Proof.
  split; [left; simpl; lia|].
  apply shape_mismatch_raises. left. simpl. lia.
Defined.

(** X2.  With arrays of one length, the type directional and a negative
    direction the driver raises its second [TypeError]. *)
Theorem negative_direction_raises (scipy : option curve_fit_t)
    (x y v : list R) (nL : nat) (di : list R) (td : R) (model : string)
    (p0 : list R) (d : R) :
  length x = length y -> length y = length v -> In d di -> d < 0 ->
  semivariogram scipy x y v nL di td "directional" model p0
  = Raise (TypeError "no negative directions in di are allowed").
Proof.
  intros E1 E2 Hd Hneg. unfold semivariogram, validate.
  rewrite E1, E2, !Nat.eqb_refl. cbn [negb orb String.eqb Ascii.eqb Bool.eqb].
  assert (any_negative di = true) as E
    by (apply any_negative_true; eauto).
  rewrite E. reflexivity.
Qed.

Lemma negative_direction_raises_witness :
  length [0; 1; 3] = length [0; 0; 0] /\ length [0; 0; 0] = length [0; 1; 3]
  /\ In (-45) [90; -45] /\ -45 < 0
  /\ semivariogram None [0; 1; 3] [0; 0; 0] [0; 1; 3] 2 [90; -45] 30
       "directional" "nomodel" []
     = Raise (TypeError "no negative directions in di are allowed").
Proof.
  split; [reflexivity|]. split; [reflexivity|].
  split; [simpl; auto|]. split; [lra|].
  apply (negative_direction_raises None [0; 1; 3] [0; 0; 0] [0; 1; 3] 2
           [90; -45] 30 "nomodel" [] (-45)); simpl; auto; lra.
Defined.

(** X3.  A tolerance above 180 is refused once the two checks before it
    have passed. *)
Theorem tolerance_above_180_raises (scipy : option curve_fit_t)
    (x y v : list R) (nL : nat) (di : list R) (td : R) (type model : string)
    (p0 : list R) :
  length x = length y -> length y = length v ->
  (type = "directional"%string -> forall d, In d di -> 0 <= d) ->
  180 < td ->
  semivariogram scipy x y v nL di td type model p0
  = Raise (TypeError "td > 180 is not allowed.").
Proof.
  intros E1 E2 Hdir Htd. unfold semivariogram, validate.
  rewrite E1, E2, !Nat.eqb_refl. cbn [negb orb].
  assert (String.eqb type "directional" && any_negative di = false) as E.
  { destruct (String.eqb type "directional") eqn:Et; [|reflexivity].
    apply String.eqb_eq in Et. cbn [andb].
    destruct (any_negative di) eqn:En; [|reflexivity].
    apply any_negative_true in En as (d & Hd & Hneg).
    specialize (Hdir Et d Hd). lra. }
  rewrite E, di_range_check_false, Rltb_yes by assumption. reflexivity.
Qed.

Lemma tolerance_above_180_raises_witness :
  length [0; 1; 3] = length [0; 0; 0] /\ length [0; 0; 0] = length [0; 1; 3]
  /\ ("omnidirectional"%string = "directional"%string ->
      forall d, In d [0] -> 0 <= d)
  /\ 180 < 181
  /\ semivariogram None [0; 1; 3] [0; 0; 0] [0; 1; 3] 2 [0] 181
       "omnidirectional" "nomodel" []
     = Raise (TypeError "td > 180 is not allowed.").
Proof.
  split; [reflexivity|]. split; [reflexivity|].
  split; [discriminate|]. split; [lra|].
  apply tolerance_above_180_raises; try reflexivity; [discriminate | lra].
Defined.

Lemma pairs_few (n : nat) : (n < 2)%nat -> pairs n = [].
Proof. intros H. destruct n as [|[|n]]; [reflexivity | reflexivity | lia]. Qed.

Lemma distang_few (x y : list R) :
  (length x < 2)%nat ->
  distang x y = Raise (ValueError "max() arg is an empty sequence").
Proof.
  intros H. unfold distang. rewrite distang_loops_spec, pairs_few by assumption.
  reflexivity.
Qed.

(** X4.  Fewer than two points: the checks pass, and the maximum of the
    empty distance array raises [ValueError], before the type and the
    model are looked at. *)
Theorem too_few_points_raises (scipy : option curve_fit_t) (x y v : list R)
    (nL : nat) (di : list R) (td : R) (type model : string) (p0 : list R) :
  (length x < 2)%nat -> length x = length y -> length y = length v ->
  (type = "directional"%string -> forall d, In d di -> 0 <= d) ->
  td <= 180 ->
  semivariogram scipy x y v nL di td type model p0
  = Raise (ValueError "max() arg is an empty sequence").
Proof.
  intros Hn E1 E2 Hdir Htd. unfold semivariogram.
  rewrite (proj2 (validate_ok_iff x y v di td type)) by auto.
  cbn [bind]. destruct scipy; rewrite distang_few by assumption; reflexivity.
Qed.

Lemma too_few_points_raises_witness :
  (length [5] < 2)%nat /\ length [5] = length [7] /\ length [7] = length [1]
  /\ ("nonsense"%string = "directional"%string ->
      forall d, In d [0] -> 0 <= d)
  /\ 30 <= 180
  /\ semivariogram None [5] [7] [1] 2 [0] 30 "nonsense" "nomodel" []
     = Raise (ValueError "max() arg is an empty sequence").
Proof.
  split; [simpl; lia|]. split; [reflexivity|]. split; [reflexivity|].
  split; [discriminate|]. split; [lra|].
  apply too_few_points_raises; try reflexivity;
    [simpl; lia | discriminate | lra].
Defined.

(** X5.  A type that is none of the three names: with passing checks and at
    least two points the driver raises [NameError], whatever the model. *)
Theorem unknown_type_raises (scipy : option curve_fit_t) (x y v : list R)
    (nL : nat) (di : list R) (td : R) (type model : string) (p0 : list R) :
  (2 <= length x)%nat -> length x = length y -> length y = length v ->
  td <= 180 ->
  type <> "omnidirectional"%string -> type <> "directional"%string ->
  type <> "directional+orientational"%string ->
  semivariogram scipy x y v nL di td type model p0
  = Raise (NameError "wrong semivariogram type!").
Proof.
  intros Hn E1 E2 Htd H1 H2 H3. unfold semivariogram.
  rewrite (proj2 (validate_ok_iff x y v di td type))
    by (repeat split; auto; congruence).
  cbn [bind]. destruct (distang_ok x y Hn) as (xr & Hd & _).
  unfold directions. apply String.eqb_neq in H1, H2, H3.
  destruct scipy; rewrite Hd; cbn [bind]; rewrite H1, H2, H3; reflexivity.
Qed.

Lemma unknown_type_raises_witness :
  (2 <= length [0; 1; 3])%nat /\ length [0; 1; 3] = length [0; 0; 0]
  /\ length [0; 0; 0] = length [0; 1; 3] /\ 30 <= 180
  /\ "omni"%string <> "omnidirectional"%string
  /\ "omni"%string <> "directional"%string
  /\ "omni"%string <> "directional+orientational"%string
  /\ semivariogram None [0; 1; 3] [0; 0; 0] [0; 1; 3] 2 [0] 30 "omni"
       "nomodel" []
     = Raise (NameError "wrong semivariogram type!").
Proof.
  split; [simpl; lia|]. split; [reflexivity|]. split; [reflexivity|].
  split; [lra|]. split; [discriminate|]. split; [discriminate|].
  split; [discriminate|].
  apply unknown_type_raises; try reflexivity; try discriminate;
    [simpl; lia | lra].
Defined.

Lemma directions_valid (type : string) (di : list R) (td : R) :
  type = "omnidirectional"%string \/ type = "directional"%string
  \/ type = "directional+orientational"%string ->
  exists di' td', directions type di td = Ok (di', td').
Proof.
  intros [H|[H|H]]; subst type; unfold directions; cbn; eauto.
Qed.

(** X6.  A model that is none of the five names, with [curve_fit]
    available: the driver raises [NameError], after the checks, the
    geometry and the type have passed. *)
Theorem unknown_model_raises (curve_fit : curve_fit_t) (x y v : list R)
    (nL : nat) (di : list R) (td : R) (type model : string) (p0 : list R) :
  (2 <= length x)%nat -> length x = length y -> length y = length v ->
  (type = "directional"%string -> forall d, In d di -> 0 <= d) ->
  td <= 180 ->
  type = "omnidirectional"%string \/ type = "directional"%string
  \/ type = "directional+orientational"%string ->
  model <> "exponential"%string -> model <> "spherical"%string ->
  model <> "gaussian"%string -> model <> "noidea"%string ->
  model <> "nomodel"%string ->
  semivariogram (Some curve_fit) x y v nL di td type model p0
  = Raise (NameError "wrong semivariogram model!").
Proof.
  intros Hn E1 E2 Hdir Htd Ht M1 M2 M3 M4 M5. unfold semivariogram.
  rewrite (proj2 (validate_ok_iff x y v di td type)) by auto.
  cbn [bind]. destruct (distang_ok x y Hn) as (xr & Hd & _).
  destruct (directions_valid type di td Ht) as (di' & td' & Hdi).
  rewrite Hd. cbn [bind]. rewrite Hdi. cbn [bind].
  unfold model_functions. apply String.eqb_neq in M1, M2, M3, M4, M5.
  rewrite M1, M2, M3, M4, M5. reflexivity.
Qed.

Lemma unknown_model_raises_witness :
  (2 <= length [0; 1; 3])%nat /\ length [0; 1; 3] = length [0; 0; 0]
  /\ length [0; 0; 0] = length [0; 1; 3]
  /\ ("omnidirectional"%string = "directional"%string ->
      forall d, In d [0] -> 0 <= d)
  /\ 180 <= 180
  /\ semivariogram (Some curve_fit_unit) [0; 1; 3] [0; 0; 0] [0; 1; 3] 2
       [0] 180 "omnidirectional" "linear" []
     = Raise (NameError "wrong semivariogram model!").
Proof.
  split; [simpl; lia|]. split; [reflexivity|]. split; [reflexivity|].
  split; [discriminate|]. split; [lra|].
  apply unknown_model_raises;
    first [reflexivity | discriminate | simpl; lia | lra | now left].
Defined.

(** X7.  The omnidirectional type does not look at the directions, and at
    the tolerance only to check it: two calls that differ in [di] and in a
    tolerance of at most 180 return the same. *)
Theorem omnidirectional_ignores_directions (scipy : option curve_fit_t)
    (x y v : list R) (nL : nat) (di di' : list R) (td td' : R)
    (model : string) (p0 : list R) :
  td <= 180 -> td' <= 180 ->
  semivariogram scipy x y v nL di td "omnidirectional" model p0
  = semivariogram scipy x y v nL di' td' "omnidirectional" model p0.
Proof.
  intros H H'. unfold semivariogram.
  assert (validate x y v di td "omnidirectional"
          = validate x y v di' td' "omnidirectional") as E.
  { unfold validate. cbn [String.eqb Ascii.eqb Bool.eqb andb].
    rewrite !di_range_check_false, (Rltb_no 180 td), (Rltb_no 180 td') by lra.
    reflexivity. }
  rewrite E. reflexivity.
Qed.

Lemma omnidirectional_ignores_directions_witness :
  30 <= 180 /\ 180 <= 180
  /\ semivariogram None [0; 1; 3] [0; 0; 0] [0; 1; 3] 2 [45; 90] 30
       "omnidirectional" "nomodel" []
     = semivariogram None [0; 1; 3] [0; 0; 0] [0; 1; 3] 2 [0] 180
         "omnidirectional" "nomodel" [].
Proof.
  split; [lra|]. split; [lra|].
  apply omnidirectional_ignores_directions; lra.
Defined.

(** X8.  Without [curve_fit] the driver does, for every model name, what
    it does for 'nomodel' with [curve_fit], and prints one warning more:
    no model name is refused and nothing is fitted. *)
Theorem no_curve_fit_is_nomodel (curve_fit : curve_fit_t) (x y v : list R)
    (nL : nat) (di : list R) (td : R) (type model : string) (p0 : list R) :
  semivariogram None x y v nL di td type model p0
  = match semivariogram (Some curve_fit) x y v nL di td type "nomodel" p0 with
    | Ok (out, log) => Ok (out, NoCurveFitWarning :: log)
    | Raise e => Raise e
    end.
Proof.
  unfold semivariogram.
  destruct (validate x y v di td type) as [u|e]; [|reflexivity].
  cbn [bind]. destruct (distang x y) as [[[[r t] xr] n]|e]; [|reflexivity].
  cbn [bind]. destruct (directions type di td) as [[di' td']|e];
    reflexivity.
Qed.

(** ** Invariants of the series *)

Section SeriesForm.

Variables (fr ft : nat * nat -> R) (xr : R) (n : nat) (z : list R)
          (nL : nat) (di td : R) (type : string).

Lemma lag_value_number (s : nat) :
  is_number (lag_value fr ft (sqdiff z) (xr / INR nL) type di td (pairs n) s)
  = negb (Nat.eqb (wcount fr ft (xr / INR nL) type di td s (pairs n)) 0).
Proof.
  unfold lag_value.
  destruct (Nat.eqb (wcount fr ft (xr / INR nL) type di td s (pairs n)) 0);
    reflexivity.
Qed.

(** The series of any type: the lags with a count other than 0, each with
    its centre, its sum over twice its count, and its count. *)
Lemma semivario_form :
  semivario (map fr (pairs n)) (map ft (pairs n)) xr n z nL di td type
  = (map (fun s => INR s * (xr / INR nL) + xr / INR nL / 2)
       (filter (fun s => negb (Nat.eqb (wcount fr ft (xr / INR nL) type di td
                                          s (pairs n)) 0))
          (seq 0 nL)),
     map (fun s => wsum fr ft (sqdiff z) (xr / INR nL) type di td s (pairs n)
                   / INR (wcount fr ft (xr / INR nL) type di td s (pairs n)
                          * 2))
       (filter (fun s => negb (Nat.eqb (wcount fr ft (xr / INR nL) type di td
                                          s (pairs n)) 0))
          (seq 0 nL)),
     map (fun s => wcount fr ft (xr / INR nL) type di td s (pairs n))
       (filter (fun s => negb (Nat.eqb (wcount fr ft (xr / INR nL) type di td
                                          s (pairs n)) 0))
          (seq 0 nL))).
Proof.
  rewrite semivario_spec, !delete_nan_map.
  rewrite (numbers_map _
             (fun s => wsum fr ft (sqdiff z) (xr / INR nL) type di td s
                         (pairs n)
                       / INR (wcount fr ft (xr / INR nL) type di td s
                                (pairs n) * 2))).
  - rewrite (filter_ext _ _ lag_value_number). reflexivity.
  - intros s Hs. rewrite lag_value_number in Hs. unfold lag_value.
    destruct (Nat.eqb (wcount fr ft (xr / INR nL) type di td s (pairs n)) 0);
      [discriminate | reflexivity].
Qed.

End SeriesForm.

Lemma wsum_nonneg (fr ft fd : nat * nat -> R) (L : R) (type : string)
    (di td : R) (s : nat) (ps : list (nat * nat)) :
  (forall op, 0 <= fd op) -> 0 <= wsum fr ft fd L type di td s ps.
Proof.
  intros H. induction ps as [|op ps IH]; [unfold wsum; simpl; lra|].
  rewrite wsum_cons. pose proof (pos_INR (weight fr ft L type di td s op)).
  specialize (H op). nra.
Qed.

Lemma sqdiff_nonneg (z : list R) (op : nat * nat) : 0 <= sqdiff z op.
Proof. unfold sqdiff. apply pow2_ge_0. Qed.

Lemma distang_driver (x y : list R) :
  (2 <= length x)%nat ->
  exists xr,
    distang x y
    = Ok (map (dist x y) (pairs (length x)),
          map (angle x y) (pairs (length x)), xr, length x)
    /\ remap_angles (map (angle x y) (pairs (length x)))
       = map (angle x y) (pairs (length x))
    /\ In xr (map (dist x y) (pairs (length x)))
    /\ 0 <= xr.
Proof.
  intros H. destruct (distang_ok x y H) as (xr & Hd & Hmax).
  apply max_list_spec in Hmax as [Hin _]. exists xr.
  split; [exact Hd|]. split; [|split; [exact Hin|]].
  - apply remap_angles_id. intros a Ha.
    apply in_map_iff in Ha as (op & <- & _).
    pose proof (arctan2_range (nth (snd op) y 0 - nth (fst op) y 0)
                  (nth (snd op) x 0 - nth (fst op) x 0)).
    unfold angle. lra.
  - apply in_map_iff in Hin as (op & <- & _). apply dist_nonneg.
Qed.

(** X9.  Whatever the type, direction and tolerance, the three arrays of a
    series have one length, at most [nL]; every semivariance is at least 0
    and every count at least 1. *)
Theorem series_invariants (x y v : list R) (nL : nat) (di td : R)
    (type : string) :
  (2 <= length x)%nat ->
  exists r t xr,
    distang x y = Ok (r, t, xr, length x)
    /\ forall h g c,
         semivario r (remap_angles t) xr (length x) v nL di td type
         = (h, g, c) ->
         length h = length g /\ length g = length c
         /\ (length c <= nL)%nat
         /\ Forall (fun a => 0 <= a) g
         /\ Forall (fun k => (1 <= k)%nat) c.
Proof.
  intros Hn. destruct (distang_driver x y Hn) as (xr & Hd & Hr & _ & _).
  exists (map (dist x y) (pairs (length x))),
         (map (angle x y) (pairs (length x))), xr.
  split; [exact Hd|]. intros h g c E. rewrite Hr, semivario_form in E.
  inversion E; subst; clear E. rewrite !length_map.
  split; [reflexivity|]. split; [reflexivity|]. split; [|split].
  - etransitivity; [apply filter_length_le|]. now rewrite length_seq.
  - apply Forall_forall. intros a Ha.
    apply in_map_iff in Ha as (s & <- & Hs). apply filter_In in Hs as [_ Hs].
    apply negb_true_iff, Nat.eqb_neq in Hs.
    apply Rmult_le_pos; [apply wsum_nonneg, sqdiff_nonneg|].
    left. apply Rinv_0_lt_compat, lt_0_INR. lia.
  - apply Forall_forall. intros k Hk.
    apply in_map_iff in Hk as (s & <- & Hs). apply filter_In in Hs as [_ Hs].
    apply negb_true_iff, Nat.eqb_neq in Hs. lia.
Qed.

(** The theorem on the points (0,0), (1,0), (3,0), for the type directional
    with the direction 90 and the tolerance 45. *)
Lemma series_invariants_witness :
  (2 <= length [0; 1; 3])%nat
  /\ exists r t xr,
       distang [0; 1; 3] [0; 0; 0] = Ok (r, t, xr, length [0; 1; 3])
       /\ forall h g c,
            semivario r (remap_angles t) xr (length [0; 1; 3]) [0; 1; 3] 2
              90 45 "directional"
            = (h, g, c) ->
            length h = length g /\ length g = length c
            /\ (length c <= 2)%nat
            /\ Forall (fun a => 0 <= a) g
            /\ Forall (fun k => (1 <= k)%nat) c.
Proof.
  split; [simpl; lia|].
  apply (series_invariants [0; 1; 3] [0; 0; 0] [0; 1; 3] 2 90 45
           "directional").
  simpl; lia.
Defined.

Lemma in_lag_width (L : R) (s : nat) (d : R) :
  in_lag L s d = true -> 0 < L.
Proof.
  unfold in_lag. rewrite andb_true_iff, !Rltb_true, plus_INR. simpl INR.
  intros [H1 H2].
  replace ((INR s + 1) * L) with (INR s * L + L) in H2 by ring. lra.
Qed.

Lemma wcount_width (fr ft : nat * nat -> R) (L : R) (type : string)
    (di td : R) (s : nat) (ps : list (nat * nat)) :
  wcount fr ft L type di td s ps <> 0%nat -> 0 < L.
Proof.
  induction ps as [|op ps IH]; [intros H; now elim H|].
  rewrite wcount_cons. intros H.
  destruct (Nat.eq_dec (weight fr ft L type di td s op) 0) as [E|E].
  - apply IH. lia.
  - unfold weight in E. destruct (in_lag L s (fr op)) eqn:El; [|now elim E].
    now apply in_lag_width in El.
Qed.

Lemma sorted_map_Rlt (f : nat -> R) (l : list nat) :
  (forall a b, (a < b)%nat -> f a < f b) ->
  StronglySorted lt l -> StronglySorted Rlt (map f l).
Proof.
  intros Hf. induction 1 as [|a l Hl IH Ha]; simpl; constructor; auto.
  rewrite Forall_forall in *. intros u Hu.
  apply in_map_iff in Hu as (b & <- & Hb). auto.
Qed.

(** X10.  The lag centres of a series increase strictly and lie strictly
    between 0 and the largest distance [xr]. *)
Theorem lag_centres_increase (x y v : list R) (nL : nat) (di td : R)
    (type : string) :
  (2 <= length x)%nat ->
  exists r t xr,
    distang x y = Ok (r, t, xr, length x)
    /\ forall h g c,
         semivario r (remap_angles t) xr (length x) v nL di td type
         = (h, g, c) ->
         StronglySorted Rlt h /\ Forall (fun a => 0 < a < xr) h.
Proof.
  intros Hn. destruct (distang_driver x y Hn) as (xr & Hd & Hr & _ & _).
  exists (map (dist x y) (pairs (length x))),
         (map (angle x y) (pairs (length x))), xr.
  split; [exact Hd|]. intros h g c E. rewrite Hr, semivario_form in E.
  inversion E; subst; clear E.
  set (L := xr / INR nL).
  set (F := filter _ (seq 0 nL)).
  assert (forall s, In s F -> (s < nL)%nat /\ 0 < L) as HF.
  { intros s Hs. apply filter_In in Hs as [Hs Hc]. apply in_seq in Hs.
    apply negb_true_iff, Nat.eqb_neq, wcount_width in Hc. split; [lia|].
    exact Hc. }
  split.
  - destruct F as [|s0 F'] eqn:EF; [constructor|]. rewrite <- EF in *.
    assert (0 < L) as HL by (apply (HF s0); rewrite EF; now left).
    apply sorted_map_Rlt; [|apply sorted_filter, sorted_seq].
    intros a b Hab. apply lt_INR in Hab. nra.
  - apply Forall_forall. intros a Ha.
    apply in_map_iff in Ha as (s & <- & Hs). apply HF in Hs as [Hs HL].
    assert (0 < INR nL) as HnL by (apply lt_0_INR; lia).
    assert (xr = INR nL * L) as Hxr by (unfold L; field; lra).
    assert (INR s + 1 <= INR nL) as Hle
      by (rewrite <- S_INR; apply le_INR; lia).
    pose proof (pos_INR s). split; nra.
Qed.

(** The theorem on the points (0,0), (1,0), (3,0). *)
Lemma lag_centres_increase_witness :
  (2 <= length [0; 1; 3])%nat
  /\ exists r t xr,
       distang [0; 1; 3] [0; 0; 0] = Ok (r, t, xr, length [0; 1; 3])
       /\ forall h g c,
            semivario r (remap_angles t) xr (length [0; 1; 3]) [0; 1; 3] 2
              0 180 "omnidirectional"
            = (h, g, c) ->
            StronglySorted Rlt h /\ Forall (fun a => 0 < a < xr) h.
Proof.
  split; [simpl; lia|].
  apply (lag_centres_increase [0; 1; 3] [0; 0; 0] [0; 1; 3] 2 0 180
           "omnidirectional").
  simpl; lia.
Defined.

(** ** The directional type against the directed one *)

Lemma fold_angle_direction (di : R) :
  fold_angle di = deg2rad (fold_direction di).
Proof.
  unfold fold_angle, fold_direction.
  destruct (Rltb (deg2rad di) 0); reflexivity.
Qed.

Lemma mult_directional (di td tk : R) :
  mult "directional" di td tk
  = (mult "directional+orientational" di td tk
     + mult "directional+orientational" (fold_direction di) td tk)%nat.
Proof.
  unfold mult. cbn [String.eqb Ascii.eqb Bool.eqb].
  now rewrite fold_angle_direction.
Qed.

Lemma nsum_map_add {A : Type} (a b : A -> nat) (l : list A) :
  nsum (map (fun u => (a u + b u)%nat) l)
  = (nsum (map a l) + nsum (map b l))%nat.
Proof.
  induction l as [|u l IH]; [reflexivity|].
  cbn [map]. rewrite !nsum_cons, IH. lia.
Qed.

Lemma wcount_directional (fr ft : nat * nat -> R) (L di td : R) (s : nat)
    (ps : list (nat * nat)) :
  wcount fr ft L "directional" di td s ps
  = (wcount fr ft L "directional+orientational" di td s ps
     + wcount fr ft L "directional+orientational" (fold_direction di) td s
         ps)%nat.
Proof.
  unfold wcount. rewrite <- nsum_map_add. f_equal. apply map_ext.
  intros op. unfold weight. rewrite mult_directional.
  destruct (in_lag L s (fr op)); reflexivity.
Qed.

(** The counts of a series add up to the counts of all the lags. *)
Lemma total_count (fr ft : nat * nat -> R) (xr : R) (n : nat) (z : list R)
    (nL : nat) (di td : R) (type : string) :
  nsum (snd (semivario (map fr (pairs n)) (map ft (pairs n)) xr n z nL di td
               type))
  = nsum (map (fun s => wcount fr ft (xr / INR nL) type di td s (pairs n))
            (seq 0 nL)).
Proof.
  rewrite semivario_form. cbn [snd].
  apply (nsum_filter_nonzero
           (fun s => wcount fr ft (xr / INR nL) type di td s (pairs n))).
Qed.

(** X11.  The directional type counts a pair once for the window of [di]
    and once for the window of the opposite direction: the counts of its
    series add up to the sum of the totals of the two directed series. *)
Theorem directional_total (x y v : list R) (nL : nat) (di td : R) :
  (2 <= length x)%nat ->
  exists r t xr,
    distang x y = Ok (r, t, xr, length x)
    /\ nsum (snd (semivario r (remap_angles t) xr (length x) v nL di td
                    "directional"))
       = (nsum (snd (semivario r (remap_angles t) xr (length x) v nL di td
                       "directional+orientational"))
          + nsum (snd (semivario r (remap_angles t) xr (length x) v nL
                         (fold_direction di) td
                         "directional+orientational")))%nat.
Proof.
  intros Hn. destruct (distang_driver x y Hn) as (xr & Hd & Hr & _ & _).
  exists (map (dist x y) (pairs (length x))),
         (map (angle x y) (pairs (length x))), xr.
  split; [exact Hd|]. rewrite Hr, !total_count, <- nsum_map_add.
  f_equal. apply map_ext. intros s. apply wcount_directional.
Qed.

(** The theorem on the points (0,0), (1,0), (3,0). *)
Lemma directional_total_witness :
  (2 <= length [0; 1; 3])%nat
  /\ exists r t xr,
       distang [0; 1; 3] [0; 0; 0] = Ok (r, t, xr, length [0; 1; 3])
       /\ nsum (snd (semivario r (remap_angles t) xr (length [0; 1; 3])
                       [0; 1; 3] 2 90 180 "directional"))
          = Nat.add
              (nsum (snd (semivario r (remap_angles t) xr (length [0; 1; 3])
                            [0; 1; 3] 2 90 180 "directional+orientational")))
              (nsum (snd (semivario r (remap_angles t) xr
                            (length [0; 1; 3]) [0; 1; 3] 2
                            (fold_direction 90) 180
                            "directional+orientational"))).
Proof.
  split; [simpl; lia|].
  apply (directional_total [0; 1; 3] [0; 0; 0] [0; 1; 3] 2 90 180).
  simpl; lia.
Defined.

(** ** The angular window *)

Lemma deg2rad_lt (u w : R) : u < w -> deg2rad u < deg2rad w.
Proof.
  intros H. unfold deg2rad. apply Rmult_lt_compat_r; [|assumption].
  pose proof PI_RGT_0. lra.
Qed.

Lemma deg2rad_le (u w : R) : u <= w -> deg2rad u <= deg2rad w.
Proof.
  intros H. unfold deg2rad. apply Rmult_le_compat_r; [|assumption].
  pose proof PI_RGT_0. lra.
Qed.

Lemma deg2rad_plus (u w : R) : deg2rad (u + w) = deg2rad u + deg2rad w.
Proof. unfold deg2rad. ring. Qed.

Lemma deg2rad_minus (u w : R) : deg2rad (u - w) = deg2rad u - deg2rad w.
Proof. unfold deg2rad. ring. Qed.

(** Decides a boolean combination of comparisons by cases. *)
Ltac cases_Rltb :=
  unfold Rltb;
  repeat match goal with
         | |- context [Rlt_dec ?a ?b] => destruct (Rlt_dec a b)
         end;
  cbn [andb orb]; try reflexivity; try (exfalso; lra).

(** X12.  A pair whose angle is exactly the centre of a window, with a
    tolerance from 0 to 180: the test accepts it exactly when the window
    [di - td - 0.01, di + td + 0.01] stays within [-180, 180]; in the two
    branches for a window that passes +180 or -180 the centre is left
    out. *)
Theorem window_centre (di td : R) :
  0 <= td <= 180 ->
  (window (deg2rad di) (deg2rad td) (deg2rad (1 / 100)) (deg2rad di) = true
   <-> di + td + 1 / 100 <= 180 /\ -180 <= di - td - 1 / 100).
Proof.
  intros [Htd0 Htd]. pose proof PI_RGT_0 as Hpi.
  pose proof (deg2rad_le 0 td Htd0) as H0.
  pose proof (deg2rad_le td 180 Htd) as H1.
  assert (deg2rad 0 = 0) as Z by (unfold deg2rad; ring).
  assert (deg2rad 180 = PI) as P by (unfold deg2rad; field).
  assert (deg2rad 360 = 2 * PI) as P2 by (unfold deg2rad; field).
  assert (0 < deg2rad (1 / 100) < PI) as Hb by (unfold deg2rad; lra).
  rewrite Z, P in *.
  destruct (Rlt_dec 180 (di + td + 1 / 100)) as [Hw|Hw].
  - pose proof (deg2rad_lt _ _ Hw) as Hr.
    rewrite !deg2rad_plus, P in Hr.
    split; [|intros [C _]; lra]. intros E. exfalso. revert E.
    unfold window. rewrite P, P2.
    generalize dependent (deg2rad di). generalize dependent (deg2rad td).
    generalize dependent (deg2rad (1 / 100)). intros b Hb ta H0 H1 a Hr.
    cases_Rltb; discriminate.
  - destruct (Rlt_dec (di - td - 1 / 100) (-180)) as [Hw'|Hw'].
    + pose proof (deg2rad_lt _ _ Hw') as Hr.
      assert (deg2rad (-180) = - PI) as P' by (unfold deg2rad; field).
      rewrite !deg2rad_minus, P' in Hr.
      split; [|intros [_ C]; lra]. intros E. exfalso. revert E.
      unfold window. rewrite P, P2.
      generalize dependent (deg2rad di). generalize dependent (deg2rad td).
      generalize dependent (deg2rad (1 / 100)). intros b Hb ta H0 H1 a Hr.
      cases_Rltb; discriminate.
    + split; [intros _; lra|]. intros _.
      assert (di + td + 1 / 100 <= 180) as L1 by lra.
      assert (-180 <= di - td - 1 / 100) as L2 by lra.
      apply deg2rad_le in L1, L2.
      assert (deg2rad (-180) = - PI) as P' by (unfold deg2rad; field).
      rewrite !deg2rad_plus, P in L1. rewrite !deg2rad_minus, P' in L2.
      unfold window. rewrite P, P2.
      generalize dependent (deg2rad di). generalize dependent (deg2rad td).
      generalize dependent (deg2rad (1 / 100)). intros b Hb ta H0 H1 a L1 L2.
      cases_Rltb.
Qed.

(** The theorem for the direction 90 and the tolerance 45. *)
Lemma window_centre_witness :
  0 <= 45 <= 180
  /\ (window (deg2rad 90) (deg2rad 45) (deg2rad (1 / 100)) (deg2rad 90)
      = true
      <-> 90 + 45 + 1 / 100 <= 180 /\ -180 <= 90 - 45 - 1 / 100).
Proof.
  split; [lra|]. apply (window_centre 90 45). lra.
Defined.

Lemma window_180 (di t : R) :
  -180 <= di <= 180 -> - PI < t <= PI -> t <> deg2rad di ->
  window (deg2rad di) (deg2rad 180) (deg2rad (1 / 100)) t = true.
Proof.
  intros [Hd1 Hd2] Ht Hne. pose proof PI_RGT_0 as Hpi.
  apply deg2rad_le in Hd1, Hd2.
  assert (deg2rad 180 = PI) as P by (unfold deg2rad; field).
  assert (deg2rad (-180) = - PI) as P' by (unfold deg2rad; field).
  assert (deg2rad 360 = 2 * PI) as P2 by (unfold deg2rad; field).
  assert (0 < deg2rad (1 / 100) < PI) as Hb by (unfold deg2rad; lra).
  rewrite P in Hd2. rewrite P' in Hd1. unfold window. rewrite P, P2.
  generalize dependent (deg2rad di). generalize dependent (deg2rad (1 / 100)).
  intros b Hb a Hne Hd1 Hd2. cases_Rltb.
Qed.

Lemma wcount_ext (fr ft : nat * nat -> R) (L : R) (type type' : string)
    (di td di' td' : R) (s : nat) (ps : list (nat * nat)) :
  (forall op, In op ps ->
     weight fr ft L type di td s op = weight fr ft L type' di' td' s op) ->
  wcount fr ft L type di td s ps = wcount fr ft L type' di' td' s ps.
Proof.
  intros H. unfold wcount. f_equal. now apply map_ext_in.
Qed.

Lemma wsum_ext (fr ft fd fd' : nat * nat -> R) (L : R) (type type' : string)
    (di td di' td' : R) (s : nat) (ps : list (nat * nat)) :
  (forall op, In op ps ->
     weight fr ft L type di td s op = weight fr ft L type' di' td' s op) ->
  (forall op, In op ps -> fd op = fd' op) ->
  wsum fr ft fd L type di td s ps = wsum fr ft fd' L type' di' td' s ps.
Proof.
  intros H H'. unfold wsum. f_equal. apply map_ext_in.
  intros op Hop. now rewrite H, H'.
Qed.

(** Two calls of [semivario] whose pairs have the same weights and the
    same squared differences return the same series. *)
Lemma semivario_ext (fr ft : nat * nat -> R) (xr : R) (n : nat)
    (z z' : list R) (nL : nat) (di td di' td' : R) (type type' : string) :
  (forall s op, In op (pairs n) ->
     weight fr ft (xr / INR nL) type di td s op
     = weight fr ft (xr / INR nL) type' di' td' s op) ->
  (forall op, In op (pairs n) -> sqdiff z op = sqdiff z' op) ->
  semivario (map fr (pairs n)) (map ft (pairs n)) xr n z nL di td type
  = semivario (map fr (pairs n)) (map ft (pairs n)) xr n z' nL di' td' type'.
Proof.
  intros Hw Hd. rewrite !semivario_form.
  assert (forall s, wcount fr ft (xr / INR nL) type di td s (pairs n)
                    = wcount fr ft (xr / INR nL) type' di' td' s (pairs n))
    as Hc by (intros s; apply wcount_ext, Hw).
  assert (forall s,
            wsum fr ft (sqdiff z) (xr / INR nL) type di td s (pairs n)
            = wsum fr ft (sqdiff z') (xr / INR nL) type' di' td' s (pairs n))
    as Hs by (intros s; apply wsum_ext; [apply Hw | apply Hd]).
  rewrite (filter_ext _ _ (fun s => f_equal (fun k => negb (Nat.eqb k 0))
                                      (Hc s))).
  rewrite (map_ext _ _ Hc).
  rewrite (map_ext _ _ (fun s => f_equal2 (fun a k => a / INR (k * 2))
                                   (Hs s) (Hc s))).
  reflexivity.
Qed.

(** X13.  The type directional+orientational with the tolerance 180 and a
    direction from -180 to 180 leaves out the pairs whose angle is exactly
    the direction, and only them: when no pair has that angle, its series
    is the omnidirectional one. *)
Theorem directed_180_is_omnidirectional (x y v : list R) (nL : nat)
    (di di' td' : R) :
  (2 <= length x)%nat -> -180 <= di <= 180 ->
  (forall op, In op (pairs (length x)) -> angle x y op <> deg2rad di) ->
  exists r t xr,
    distang x y = Ok (r, t, xr, length x)
    /\ semivario r (remap_angles t) xr (length x) v nL di 180
         "directional+orientational"
       = semivario r (remap_angles t) xr (length x) v nL di' td'
           "omnidirectional".
Proof.
  intros Hn Hdi Hne. destruct (distang_driver x y Hn) as (xr & Hd & Hr & _).
  exists (map (dist x y) (pairs (length x))),
         (map (angle x y) (pairs (length x))), xr.
  split; [exact Hd|]. rewrite Hr. apply semivario_ext; [|reflexivity].
  intros s op Hop. unfold weight.
  destruct (in_lag (xr / INR nL) s (dist x y op)); [|reflexivity].
  unfold mult. cbn [String.eqb Ascii.eqb Bool.eqb].
  rewrite window_180; [reflexivity | assumption | | now apply Hne].
  apply arctan2_range.
Qed.

(** The theorem on the points (0,0), (1,0), (3,0), whose pairs are at the
    angle 0, for the direction 90. *)
Lemma directed_180_is_omnidirectional_witness :
  (2 <= length [0; 1; 3])%nat /\ -180 <= 90 <= 180
  /\ (forall op, In op (pairs (length [0; 1; 3])) ->
        angle [0; 1; 3] [0; 0; 0] op <> deg2rad 90)
  /\ exists r t xr,
       distang [0; 1; 3] [0; 0; 0] = Ok (r, t, xr, length [0; 1; 3])
       /\ semivario r (remap_angles t) xr (length [0; 1; 3]) [0; 1; 3] 2 90
            180 "directional+orientational"
          = semivario r (remap_angles t) xr (length [0; 1; 3]) [0; 1; 3] 2 0
              180 "omnidirectional".
Proof.
  assert (forall op, In op (pairs (length [0; 1; 3])) ->
            angle [0; 1; 3] [0; 0; 0] op <> deg2rad 90) as Hne.
  { intros op Hop. cbn [length] in Hop. rewrite pairs_3 in Hop.
    pose proof PI_RGT_0. unfold deg2rad.
    destruct Hop as [<-|[<-|[<-|[]]]];
      rewrite angle_line by (simpl; lra); lra. }
  split; [simpl; lia|]. split; [lra|]. split; [exact Hne|].
  apply (directed_180_is_omnidirectional [0; 1; 3] [0; 0; 0] [0; 1; 3] 2 90
           0 180); [simpl; lia | lra | exact Hne].
Defined.

(** ** Shifting the points and the values *)

Lemma nth_map_in (f : R -> R) (l : list R) (k : nat) :
  (k < length l)%nat -> nth k (map f l) 0 = f (nth k l 0).
Proof.
  intros H. rewrite (nth_indep _ 0 (f 0)) by (now rewrite length_map).
  apply map_nth.
Qed.

Lemma distang_shift (x y : list R) (a b : R) :
  length x = length y ->
  distang (map (fun u => u + a) x) (map (fun u => u + b) y) = distang x y.
Proof.
  intros E. unfold distang. rewrite !distang_loops_spec, length_map.
  assert (forall op, In op (pairs (length x)) ->
            dist (map (fun u => u + a) x) (map (fun u => u + b) y) op
            = dist x y op
            /\ angle (map (fun u => u + a) x) (map (fun u => u + b) y) op
               = angle x y op) as H.
  { intros [o p] Hop. apply in_pairs in Hop. unfold dist, angle.
    cbn [fst snd]. rewrite !nth_map_in by lia.
    replace (nth p x 0 + a - (nth o x 0 + a)) with (nth p x 0 - nth o x 0)
      by ring.
    replace (nth p y 0 + b - (nth o y 0 + b)) with (nth p y 0 - nth o y 0)
      by ring.
    split; reflexivity. }
  rewrite (map_ext_in
             (dist (map (fun u => u + a) x) (map (fun u => u + b) y))
             (dist x y)) by (intros op Hop; apply H, Hop).
  rewrite (map_ext_in
             (angle (map (fun u => u + a) x) (map (fun u => u + b) y))
             (angle x y)) by (intros op Hop; apply H, Hop).
  reflexivity.
Qed.

(** X14.  Moving all the points by one vector [(a, b)] changes nothing:
    the driver returns, or raises, the same. *)
Theorem translation_invariant (scipy : option curve_fit_t) (x y v : list R)
    (nL : nat) (di : list R) (td : R) (type model : string) (p0 : list R)
    (a b : R) :
  semivariogram scipy (map (fun u => u + a) x) (map (fun u => u + b) y) v
    nL di td type model p0
  = semivariogram scipy x y v nL di td type model p0.
Proof.
  unfold semivariogram.
  assert (validate (map (fun u => u + a) x) (map (fun u => u + b) y) v di td
            type = validate x y v di td type) as Ev
    by (unfold validate; now rewrite !length_map).
  rewrite Ev. destruct (validate x y v di td type) as [u|e] eqn:Hv;
    [|reflexivity].
  destruct u. apply validate_ok_iff in Hv as (E1 & _).
  rewrite distang_shift by assumption. reflexivity.
Qed.

Lemma sqdiff_shift (v : list R) (c : R) (op : nat * nat) :
  (fst op < length v)%nat -> (snd op < length v)%nat ->
  sqdiff (map (fun u => u + c) v) op = sqdiff v op.
Proof.
  intros H1 H2. unfold sqdiff. rewrite !nth_map_in by assumption.
  f_equal. ring.
Qed.

(** X15.  Adding one constant to all the values changes nothing: the
    driver returns, or raises, the same, fitted or not. *)
Theorem value_shift_invariant (scipy : option curve_fit_t) (x y v : list R)
    (nL : nat) (di : list R) (td : R) (type model : string) (p0 : list R)
    (c : R) :
  semivariogram scipy x y (map (fun u => u + c) v) nL di td type model p0
  = semivariogram scipy x y v nL di td type model p0.
Proof.
  unfold semivariogram.
  assert (validate x y (map (fun u => u + c) v) di td type
          = validate x y v di td type) as Ev
    by (unfold validate; now rewrite !length_map).
  rewrite Ev. destruct (validate x y v di td type) as [u|e] eqn:Hv;
    [|reflexivity].
  destruct u. apply validate_ok_iff in Hv as (E1 & E2 & _). cbn [bind].
  destruct (le_lt_dec 2 (length x)) as [Hn|Hn].
  - destruct (distang_driver x y Hn) as (xr & Hd & Hr & _).
    rewrite Hd. cbn [bind]. rewrite Hr.
    assert (forall td' i,
              series_of (map (dist x y) (pairs (length x)))
                (map (angle x y) (pairs (length x))) xr (length x)
                (map (fun u => u + c) v) nL td' type i
              = series_of (map (dist x y) (pairs (length x)))
                  (map (angle x y) (pairs (length x))) xr (length x)
                  v nL td' type i) as Hs.
    { intros td' i. unfold series_of. apply semivario_ext; [reflexivity|].
      intros [o p] Hop. apply in_pairs in Hop.
      apply sqdiff_shift; cbn [fst snd]; lia. }
    destruct (directions type di td) as [[di' td']|e]; [|reflexivity].
    cbn [bind]. rewrite (map_ext _ _ (Hs td')). reflexivity.
  - rewrite distang_few by assumption. reflexivity.
Qed.

Lemma wsum_scale (fr ft fd fd' : nat * nat -> R) (q L : R) (type : string)
    (di td : R) (s : nat) (ps : list (nat * nat)) :
  (forall op, In op ps -> fd' op = q * fd op) ->
  wsum fr ft fd' L type di td s ps = q * wsum fr ft fd L type di td s ps.
Proof.
  induction ps as [|op ps IH]; intros H.
  - unfold wsum. simpl. ring.
  - rewrite !wsum_cons, IH by (intros; apply H; now right).
    rewrite (H op) by (now left). ring.
Qed.

Lemma sqdiff_scale (v : list R) (k : R) (op : nat * nat) :
  (fst op < length v)%nat -> (snd op < length v)%nat ->
  sqdiff (map (Rmult k) v) op = k * k * sqdiff v op.
Proof.
  intros H1 H2. unfold sqdiff. rewrite !nth_map_in by assumption. ring.
Qed.

Lemma semivario_scale (fr ft : nat * nat -> R) (xr : R) (n : nat)
    (v : list R) (nL : nat) (di td : R) (type : string) (k : R) :
  length v = n ->
  semivario (map fr (pairs n)) (map ft (pairs n)) xr n (map (Rmult k) v) nL
    di td type
  = (fst (fst (semivario (map fr (pairs n)) (map ft (pairs n)) xr n v nL
                 di td type)),
     map (Rmult (k * k))
       (snd (fst (semivario (map fr (pairs n)) (map ft (pairs n)) xr n v nL
                    di td type))),
     snd (semivario (map fr (pairs n)) (map ft (pairs n)) xr n v nL di td
            type)).
Proof.
  intros E. rewrite !semivario_form. cbn [fst snd]. rewrite map_map.
  f_equal. f_equal. apply map_ext. intros s.
  rewrite (wsum_scale fr ft (sqdiff v) _ (k * k)).
  - unfold Rdiv. ring.
  - intros [o p] Hop. apply in_pairs in Hop.
    apply sqdiff_scale; cbn [fst snd]; lia.
Qed.

(** X16.  Multiplying all the values by [k] multiplies every
    semivariance by [k*k] and leaves the lag centres and the counts as
    they are. *)
Theorem value_scaling (scipy : option curve_fit_t) (x y v : list R)
    (nL : nat) (di : list R) (td : R) (type : string) (p0 : list R) (k : R) :
  semivariogram scipy x y (map (Rmult k) v) nL di td type "nomodel" p0
  = match semivariogram scipy x y v nL di td type "nomodel" p0 with
    | Ok (Series h g c, log) =>
        Ok (Series h (map (map (Rmult (k * k))) g) c, log)
    | other => other
    end.
Proof.
  assert (validate x y (map (Rmult k) v) di td type
          = validate x y v di td type) as Ev
    by (unfold validate; now rewrite !length_map).
  destruct (validate x y v di td type) as [u|e] eqn:Hv.
  - destruct u. pose proof Hv as Hv'.
    apply validate_ok_iff in Hv' as (E1 & E2 & _).
    destruct (le_lt_dec 2 (length x)) as [Hn|Hn].
    + destruct (distang_driver x y Hn) as (xr & Hd & Hr & _).
      destruct (directions type di td) as [[di' td']|e] eqn:Hdi.
      * rewrite (semivariogram_nomodel scipy x y (map (Rmult k) v) nL di td
                   type p0 _ _ _ _ _ _ Ev Hd Hdi).
        rewrite (semivariogram_nomodel scipy x y v nL di td type p0
                   _ _ _ _ _ _ Hv Hd Hdi).
        rewrite Hr.
        assert (forall i,
          semivario (map (dist x y) (pairs (length x)))
            (map (angle x y) (pairs (length x))) xr (length x)
            (map (Rmult k) v) nL i td' type
          = (fst (fst (semivario (map (dist x y) (pairs (length x)))
                         (map (angle x y) (pairs (length x))) xr (length x)
                         v nL i td' type)),
             map (Rmult (k * k))
               (snd (fst (semivario (map (dist x y) (pairs (length x)))
                            (map (angle x y) (pairs (length x))) xr
                            (length x) v nL i td' type))),
             snd (semivario (map (dist x y) (pairs (length x)))
                    (map (angle x y) (pairs (length x))) xr (length x)
                    v nL i td' type))) as Hs
          by (intros i; apply semivario_scale; congruence).
        rewrite (map_ext _ _ (fun i => f_equal (fun s => fst (fst s))
                                         (Hs i))).
        rewrite (map_ext _ _ (fun i => f_equal (fun s => snd (fst s))
                                         (Hs i))).
        rewrite (map_ext _ _ (fun i => f_equal snd (Hs i))).
        cbn [fst snd]. rewrite (map_map _ (map (Rmult (k * k)))).
        reflexivity.
      * unfold semivariogram. rewrite Ev, Hv. cbn [bind].
        destruct scipy; rewrite Hd; cbn [bind]; rewrite Hdi; reflexivity.
    + unfold semivariogram. rewrite Ev, Hv. cbn [bind].
      destruct scipy; rewrite distang_few by assumption; reflexivity.
  - unfold semivariogram. rewrite Ev, Hv. reflexivity.
Qed.

(** ** The models and their ranges *)

Lemma ln_nonpos (u : R) : 0 < u <= 1 -> ln u <= 0.
Proof.
  intros [H0 H1]. destruct (Req_dec u 1) as [->|Hne].
  - rewrite ln_1. lra.
  - rewrite <- ln_1. left. apply ln_increasing; lra.
Qed.

(** X17.  Each range function inverts its model at the sill [c0 + ce]:
    the exponential and the gaussian model reach 95 percent of the sill at
    the range ([0 < ce], [0 < c0 + ce], [c0 <= 19 * ce], and [0 < a0] or
    [a0 <> 0]), and the spherical model reaches the sill at its range
    [a0 > 0]. *)
Theorem range_inverts_model (c0 ce a0 : R) :
  0 < ce -> 0 < c0 + ce -> c0 <= 19 * ce -> 0 < a0 ->
  expvar (exprange (c0 + ce) c0 ce a0) c0 ce a0 = 95 / 100 * (c0 + ce)
  /\ gauvar (gaurange (c0 + ce) c0 ce a0) c0 ce a0 = 95 / 100 * (c0 + ce)
  /\ gauvar (gaurange (c0 + ce) c0 ce (- a0)) c0 ce (- a0)
     = 95 / 100 * (c0 + ce)
  /\ sphvar (sphrange (c0 + ce) c0 ce a0) c0 ce a0 = c0 + ce.
Proof.
  intros Hce Hs Hc Ha.
  set (u := - ((c0 + ce) * (95 / 100) - c0) / ce + 1).
  assert (u = 5 / 100 * (c0 + ce) / ce) as Eu by (unfold u; field; lra).
  assert (0 < u <= 1) as Hu.
  { rewrite Eu. split.
    - apply Rdiv_lt_0_compat; lra.
    - apply Rmult_le_reg_r with ce; [assumption|].
      unfold Rdiv. rewrite Rmult_assoc, Rinv_l by lra. lra. }
  pose proof (ln_nonpos u Hu) as Hln.
  assert (c0 + ce * (1 - u) = 95 / 100 * (c0 + ce)) as Hval
    by (rewrite Eu; field; lra).
  assert (forall a, a <> 0 ->
            gauvar (gaurange (c0 + ce) c0 ce a) c0 ce a
            = 95 / 100 * (c0 + ce)) as Hgau.
  { intros a Hane. unfold gauvar, gaurange. fold u.
    assert (0 <= - a ^ 2 * ln u) as Hpos
      by (pose proof (pow2_ge_0 a); nra).
    rewrite pow2_sqrt by assumption.
    replace (- (- a ^ 2 * ln u) / a ^ 2) with (ln u)
      by (field; assumption).
    rewrite exp_ln by lra. exact Hval. }
  split; [|split; [|split]].
  - unfold expvar, exprange. fold u.
    rewrite Rabs_right by nra.
    replace (- (- ln u * a0) / a0) with (ln u) by (field; lra).
    rewrite exp_ln by lra. exact Hval.
  - apply Hgau. lra.
  - apply Hgau. lra.
  - unfold sphvar, sphrange, Rleb. rewrite Rabs_right by lra.
    destruct (Rle_dec 0 a0); [|lra]. destruct (Rle_dec a0 a0); [|lra].
    cbn [andb]. field. lra.
Qed.

(** The theorem for the nugget 1/2, the partial sill 1/2 and the range
    parameter 100. *)
Lemma range_inverts_model_witness :
  0 < 1 / 2 /\ 0 < 1 / 2 + 1 / 2 /\ 1 / 2 <= 19 * (1 / 2) /\ 0 < 100
  /\ expvar (exprange (1 / 2 + 1 / 2) (1 / 2) (1 / 2) 100) (1 / 2) (1 / 2) 100
     = 95 / 100 * (1 / 2 + 1 / 2).
Proof.
  split; [lra|]. split; [lra|]. split; [lra|]. split; [lra|].
  apply (range_inverts_model (1 / 2) (1 / 2) 100); lra.
Defined.

(** X18.  For a range parameter [a0] other than 0 the three models are
    even in [h], and the exponential and the gaussian one are the nugget
    [c0] at [h = 0]; so is the spherical one for [a0 > 0]; and with
    [ce >= 0] and [a0 > 0] their values lie between the nugget [c0] and the
    sill [c0 + ce]. *)
Theorem models_shape (h c0 ce a0 : R) :
  (a0 <> 0 ->
   (expvar (- h) c0 ce a0 = expvar h c0 ce a0
    /\ sphvar (- h) c0 ce a0 = sphvar h c0 ce a0
    /\ gauvar (- h) c0 ce a0 = gauvar h c0 ce a0)
   /\ expvar 0 c0 ce a0 = c0 /\ gauvar 0 c0 ce a0 = c0)
  /\ (0 < a0 -> sphvar 0 c0 ce a0 = c0)
  /\ (0 <= ce -> 0 < a0 ->
      c0 <= expvar h c0 ce a0 <= c0 + ce
      /\ c0 <= sphvar h c0 ce a0 <= c0 + ce
      /\ c0 <= gauvar h c0 ce a0 <= c0 + ce).
Proof.
  split; [|split].
  - intros _. split.
    + unfold expvar, sphvar, gauvar. rewrite Rabs_Ropp.
      replace ((- h) ^ 2) with (h ^ 2) by ring. repeat split.
    + unfold expvar, gauvar. rewrite Rabs_R0.
      replace (- 0 / a0) with 0 by (unfold Rdiv; ring).
      replace (- 0 ^ 2 / a0 ^ 2) with 0 by (unfold Rdiv; ring).
      rewrite exp_0. split; ring.
  - intros Ha. unfold sphvar, Rleb. rewrite Rabs_R0.
    destruct (Rle_dec 0 0); [|lra]. destruct (Rle_dec 0 a0); [|lra].
    cbn [andb]. unfold Rdiv. ring.
  - intros Hce Ha.
    assert (forall w, w <= 0 -> 0 <= 1 - exp w <= 1) as Hexp.
    { intros w Hw. pose proof (exp_pos w).
      destruct (Req_dec w 0) as [->|Hne]; [rewrite exp_0; lra|].
      assert (exp w < exp 0) by (apply exp_increasing; lra).
      rewrite exp_0 in *. lra. }
    split; [|split].
    + unfold expvar.
      assert (- Rabs h / a0 <= 0) as Hw.
      { pose proof (Rabs_pos h). unfold Rdiv.
        assert (0 < / a0) by (now apply Rinv_0_lt_compat). nra. }
      pose proof (Hexp _ Hw). nra.
    + unfold sphvar, Rleb. destruct (Rle_dec 0 (Rabs h)); cbn [andb]; [|lra].
      destruct (Rle_dec (Rabs h) a0) as [Hh|Hh]; [|lra].
      assert (0 <= Rabs h / a0 <= 1) as Hu.
      { split.
        - apply Rmult_le_pos; [assumption|]. left.
          now apply Rinv_0_lt_compat.
        - apply Rmult_le_reg_r with a0; [assumption|].
          unfold Rdiv. rewrite Rmult_assoc, Rinv_l by lra. lra. }
      revert Hu. generalize (Rabs h / a0). intros u Hu.
      assert (0 <= 3 / 2 * u - 1 / 2 * u ^ 3 <= 1) as Hb.
      { simpl. split.
        - assert (0 <= u * u <= 1) by nra. nra.
        - assert (0 <= (1 - u) * (1 - u) * (u + 2)) by
            (apply Rmult_le_pos; [apply Rle_0_sqr | lra]). nra. }
      nra.
    + unfold gauvar.
      assert (- h ^ 2 / a0 ^ 2 <= 0) as Hw.
      { pose proof (pow2_ge_0 h). unfold Rdiv.
        assert (0 < / a0 ^ 2)
          by (apply Rinv_0_lt_compat; simpl; nra). nra. }
      pose proof (Hexp _ Hw). nra.
Qed.

(** ** Points at one place *)

Lemma in_lag_zero_width (s : nat) (d : R) : in_lag 0 s d = false.
Proof.
  unfold in_lag. apply andb_false_iff. right. apply Rltb_false.
  pose proof (Rabs_pos d). lra.
Qed.

Lemma filter_none {A : Type} (f : A -> bool) (l : list A) :
  (forall a, In a l -> f a = false) -> filter f l = [].
Proof.
  induction l as [|a l IH]; intros H; [reflexivity|]. cbn [filter].
  rewrite H by (now left). apply IH. intros; apply H; now right.
Qed.

(** X19.  When all the points have the coordinates of the first one, the
    largest distance is 0 and every series is empty, whatever the type,
    the direction, the tolerance and the number of lags: nothing is
    raised. *)
Theorem coincident_points_empty_series (x y : list R) :
  (2 <= length x)%nat ->
  (forall k, (k < length x)%nat ->
     nth k x 0 = nth 0 x 0 /\ nth k y 0 = nth 0 y 0) ->
  exists r t,
    distang x y = Ok (r, t, 0, length x)
    /\ forall v nL di td type,
         semivario r (remap_angles t) 0 (length x) v nL di td type
         = ([], [], []).
Proof.
  intros Hn Hsame. destruct (distang_driver x y Hn) as (xr & Hd & Hr & Hin & _).
  assert (xr = 0) as ->.
  { apply in_map_iff in Hin as ([o p] & <- & Hop). apply in_pairs in Hop.
    unfold dist. cbn [fst snd].
    destruct (Hsame o ltac:(lia)) as [-> ->].
    destruct (Hsame p ltac:(lia)) as [-> ->].
    replace ((nth 0 x 0 - nth 0 x 0) ^ 2 + (nth 0 y 0 - nth 0 y 0) ^ 2)
      with 0 by ring.
    apply sqrt_0. }
  exists (map (dist x y) (pairs (length x))),
         (map (angle x y) (pairs (length x))).
  split; [exact Hd|]. intros v nL di td type.
  rewrite Hr, semivario_form.
  replace (0 / INR nL) with 0 by (unfold Rdiv; ring).
  rewrite filter_none; [reflexivity|].
  intros s _. apply negb_false_iff, Nat.eqb_eq.
  unfold wcount. apply nsum_zero. intros op _. unfold weight.
  now rewrite in_lag_zero_width.
Qed.

(** The theorem on three points at (1, 2). *)
Lemma coincident_points_empty_series_witness :
  (2 <= length [1; 1; 1])%nat
  /\ (forall k, (k < length [1; 1; 1])%nat ->
        nth k [1; 1; 1] 0 = nth 0 [1; 1; 1] 0
        /\ nth k [2; 2; 2] 0 = nth 0 [2; 2; 2] 0)
  /\ exists r t,
       distang [1; 1; 1] [2; 2; 2] = Ok (r, t, 0, length [1; 1; 1])
       /\ forall v nL di td type,
            semivario r (remap_angles t) 0 (length [1; 1; 1]) v nL di td type
            = ([], [], []).
Proof.
  assert (forall k, (k < length [1; 1; 1])%nat ->
            nth k [1; 1; 1] 0 = nth 0 [1; 1; 1] 0
            /\ nth k [2; 2; 2] 0 = nth 0 [2; 2; 2] 0) as H.
  { intros [|[|[|k]]] Hk; simpl in *; try lia; split; reflexivity. }
  split; [simpl; lia|]. split; [exact H|].
  apply (coincident_points_empty_series [1; 1; 1] [2; 2; 2]);
    [simpl; lia | exact H].
Defined.

(** ** Exceptions and ties in the fitting part *)

Lemma for_each_raise {X S : Type} (l1 : list X) (a : X) (l2 : list X)
    (body : X -> S -> result S) (f : S -> X -> S) (e : exn) :
  (forall u st, In u l1 -> body u st = Ok (f st u)) ->
  (forall st, body a st = Raise e) ->
  forall st, for_each (l1 ++ a :: l2) body st = Raise e.
Proof.
  intros H1 Ha. induction l1 as [|u l1 IH]; intros st; cbn [app for_each].
  - now rewrite Ha.
  - rewrite H1 by (now left). cbn [bind]. apply IH.
    intros; apply H1; now right.
Qed.

Lemma seq_split (n k : nat) :
  (k < n)%nat -> seq 0 n = seq 0 k ++ k :: seq (S k) (n - S k).
Proof.
  intros H. replace n with (k + S (n - S k))%nat at 1 by lia.
  rewrite seq_app. reflexivity.
Qed.

Lemma fit_step_raise (curve_fit : curve_fit_t)
    (func : list (R -> R -> R -> R -> R)) (h g : list (list R))
    (di p0 : list R) (j i : nat) (e : exn) (st : fit_state) :
  outcome curve_fit func h g p0 j i = CFRaise e -> e <> AttributeError ->
  fit_step curve_fit func h g di p0 j i st = Raise e.
Proof.
  unfold fit_step, outcome. intros -> He.
  destruct e; try reflexivity. now elim He.
Qed.

(** X20.  The first attempt, in the order of the loops (model by model,
    direction by direction), at which [curve_fit] raises something other
    than [AttributeError] ends the fitting part with that exception. *)
Theorem first_exception_propagates (curve_fit : curve_fit_t)
    (func range_ : list (R -> R -> R -> R -> R)) (h g : list (list R))
    (c : list (list nat)) (di p0 : list R) (log : list diag)
    (j i : nat) (e : exn) :
  (j < length func)%nat -> (i < length di)%nat ->
  (forall j' i', (j' < length func)%nat -> (i' < length di)%nat ->
     (j' < j)%nat \/ (j' = j /\ (i' < i)%nat) ->
     recoverable (outcome curve_fit func h g p0 j' i') = true) ->
  outcome curve_fit func h g p0 j i = CFRaise e -> e <> AttributeError ->
  fit_and_select curve_fit func range_ h g c di p0 log = Raise e.
Proof.
  intros Hj Hi Hbefore Ho He. unfold fit_and_select.
  assert (forall st, fit_loops curve_fit func h g di p0 st = Raise e) as H.
  { intros st. unfold fit_loops, range. rewrite !Nat.sub_0_r.
    rewrite (seq_split (length func) j Hj).
    apply (for_each_raise _ _ _ _
             (fun st j' =>
                fold_left
                  (fun st i' =>
                     cell_step di j' i' (outcome curve_fit func h g p0 j' i')
                       st)
                  (seq 0 (length di)) st)).
    - intros j' st' Hj'. apply in_seq in Hj'. apply for_each_ok.
      intros i' st'' Hi'. apply in_seq in Hi'.
      apply fit_step_ok, Hbefore; lia.
    - intros st'. rewrite (seq_split (length di) i Hi).
      apply (for_each_raise _ _ _ _
               (fun st i' =>
                  cell_step di j i' (outcome curve_fit func h g p0 j i') st)).
      + intros i' st'' Hi'. apply in_seq in Hi'.
        apply fit_step_ok, Hbefore; lia.
      + intros st''. now apply fit_step_raise. }
  rewrite H. reflexivity.
Qed.

(** The theorem for a [curve_fit] that never converges. *)
Lemma first_exception_propagates_witness :
  (0 < length [expvar])%nat /\ (0 < length [0])%nat
  /\ fit_and_select curve_fit_not_converging [expvar] [exprange]
       [[3 / 4; 9 / 4]] [[1 / 2; 2]] [[1; 1]%nat] [0] [1 / 2; 1 / 2; 100] []
     = Raise (RuntimeError "Optimal parameters not found").
Proof.
  split; [simpl; lia|]. split; [simpl; lia|].
  apply (first_exception_propagates curve_fit_not_converging [expvar]
           [exprange] [[3 / 4; 9 / 4]] [[1 / 2; 2]] [[1; 1]%nat] [0]
           [1 / 2; 1 / 2; 100] [] 0 0);
    [simpl; lia | simpl; lia | intros; lia | reflexivity | discriminate].
Defined.

(** X21.  With one model there is nothing to choose: the fitting part
    returns, per direction, the nugget, the sill, the range by the model's
    own range function, the score and the covariance of that model. *)
Theorem single_model_results (curve_fit : curve_fit_t)
    (f rf : R -> R -> R -> R -> R) (h g : list (list R))
    (c : list (list nat)) (di p0 : list R) (log : list diag) :
  (forall i, (i < length di)%nat ->
     recoverable (outcome curve_fit [f] h g p0 0 i) = true) ->
  fit_and_select curve_fit [f] [rf] h g c di p0 log
  = Ok (Fitted
          (map (fun i => nugget_of
                           (fitted_params (outcome curve_fit [f] h g p0) 0 i))
             (seq 0 (length di)))
          (map (fun i => sill_of
                           (fitted_params (outcome curve_fit [f] h g p0) 0 i))
             (seq 0 (length di)))
          (map (fun i => range_of rf
                           (fitted_params (outcome curve_fit [f] h g p0) 0 i))
             (seq 0 (length di)))
          (map (fun i => vark_cell (outcome curve_fit [f] h g p0 0 i))
             (seq 0 (length di)))
          (map (fun i => cell_value (CovScalar (Fin 0))
                           (pcov_cell (outcome curve_fit [f] h g p0 0 i)))
             (seq 0 (length di)))
          h g c,
        log ++ fitted_log di (outcome curve_fit [f] h g p0) 1 (length di)).
Proof.
  intros H. rewrite fit_and_select_spec.
  - cbn [length]. unfold fitted_vark at 1 2 3 4 5. cbn [seq map argmin].
    cbn [argmin_from].
    destruct (nuggets_fitted (outcome curve_fit [f] h g p0) 1 (length di) 0
                ltac:(lia)) as (Hn & Hs & Hr).
    rewrite Hn, Hs, Hr. reflexivity.
  - intros j i Hj Hi. cbn [length] in Hj.
    replace j with 0%nat by lia. now apply H.
Qed.

(** The theorem for the spherical model and one direction. *)
Lemma single_model_results_witness :
  (forall i, (i < length [0])%nat ->
     recoverable (outcome curve_fit_unit [sphvar] [[3 / 4; 9 / 4]]
                    [[1 / 2; 2]] [1 / 2; 1 / 2; 100] 0 i) = true)
  /\ exists nug sil vk pc log,
       fit_and_select curve_fit_unit [sphvar] [sphrange] [[3 / 4; 9 / 4]]
         [[1 / 2; 2]] [[1; 1]%nat] [0] [1 / 2; 1 / 2; 100] []
       = Ok (Fitted nug sil [1] vk pc [[3 / 4; 9 / 4]] [[1 / 2; 2]]
               [[1; 1]%nat], log).
Proof.
  split; [intros; reflexivity|].
  do 5 eexists.
  rewrite (single_model_results curve_fit_unit sphvar sphrange
             [[3 / 4; 9 / 4]] [[1 / 2; 2]] [[1; 1]%nat] [0]
             [1 / 2; 1 / 2; 100] []) by (intros; reflexivity).
  reflexivity.
Defined.

(** X22.  When the score of every fit with a covariance matrix is a number
    (three parameters, none of them zero, and no negative variance) and
    some model was fitted with a covariance matrix in every direction (so
    that its mean score is a number), the model chosen has no infinite
    score: a model with a failed fit is never preferred to it. *)
Theorem failed_model_not_chosen (curve_fit : curve_fit_t)
    (func range_ : list (R -> R -> R -> R -> R)) (h g : list (list R))
    (c : list (list nat)) (di p0 : list R) (log : list diag) (j0 : nat) :
  (forall j i, (j < length func)%nat -> (i < length di)%nat ->
     recoverable (outcome curve_fit func h g p0 j i) = true) ->
  (forall j i, (j < length func)%nat -> (i < length di)%nat ->
     score_defined (outcome curve_fit func h g p0 j i)) ->
  (j0 < length func)%nat ->
  (forall i, (i < length di)%nat ->
     exists p m,
       outcome curve_fit func h g p0 j0 i = CFReturn p (CovMatrix m)) ->
  exists nug sil rng vk pc log',
    fit_and_select curve_fit func range_ h g c di p0 log
    = Ok (Fitted nug sil rng vk pc h g c, log')
    /\ ~ In Inf vk.
Proof.
  intros Hrec _ Hj0 Hfit. rewrite fit_and_select_spec by assumption.
  set (F := outcome curve_fit func h g p0).
  set (V := fitted_vark F (length func) (length di)).
  do 6 eexists. split; [reflexivity|].
  assert (length V = length func) as HV
    by (unfold V, fitted_vark; now rewrite length_map, length_seq).
  destruct (argmin_spec (map mean_score V)) as [Hlt Hmin].
  { intros C. apply (f_equal (@length _)) in C.
    rewrite length_map, HV in C. simpl in C. lia. }
  rewrite length_map, HV in Hlt, Hmin.
  specialize (Hmin j0 Hj0).
  assert (forall j, (j < length func)%nat ->
            nth j (map mean_score V) Inf
            = mean_score (map (fun i => vark_cell (F j i))
                            (seq 0 (length di)))) as Hnth.
  { intros j Hj. unfold V, fitted_vark. rewrite map_map.
    now rewrite nth_map_seq. }
  rewrite (Hnth j0 Hj0), (Hnth _ Hlt) in Hmin.
  assert (mean_score (map (fun i => vark_cell (F j0 i)) (seq 0 (length di)))
          <> Inf) as Hfin.
  { intros C. apply mean_score_inf in C.
    apply in_map_iff in C as (i & Hi & Hin). apply in_seq in Hin.
    destruct (Hfit i ltac:(lia)) as (p & m & E). unfold F in Hi.
    rewrite E in Hi. discriminate. }
  intros C.
  assert (nth (argmin (map mean_score V)) V []
          = map (fun i => vark_cell (F (argmin (map mean_score V)) i))
              (seq 0 (length di))) as Hrow
    by (unfold V at 2, fitted_vark; now rewrite nth_map_seq).
  rewrite Hrow in C. apply mean_score_inf in C. rewrite C in Hmin.
  destruct (mean_score (map (fun i => vark_cell (F j0 i))
                          (seq 0 (length di)))); [discriminate|].
  now elim Hfin.
Qed.

(** The theorem for the three models and one direction, all fitted. *)
Lemma failed_model_not_chosen_witness :
  (forall j i, (j < length [expvar; sphvar; gauvar])%nat ->
     (i < length [0])%nat ->
     recoverable
       (outcome curve_fit_unit [expvar; sphvar; gauvar] [[3 / 4; 9 / 4]]
          [[1 / 2; 2]] [1 / 2; 1 / 2; 100] j i) = true)
  /\ (forall j i, (j < length [expvar; sphvar; gauvar])%nat ->
        (i < length [0])%nat ->
        score_defined
          (outcome curve_fit_unit [expvar; sphvar; gauvar] [[3 / 4; 9 / 4]]
             [[1 / 2; 2]] [1 / 2; 1 / 2; 100] j i))
  /\ exists nug sil rng vk pc log',
       fit_and_select curve_fit_unit [expvar; sphvar; gauvar]
         [exprange; sphrange; gaurange] [[3 / 4; 9 / 4]] [[1 / 2; 2]]
         [[1; 1]%nat] [0] [1 / 2; 1 / 2; 100] []
       = Ok (Fitted nug sil rng vk pc [[3 / 4; 9 / 4]] [[1 / 2; 2]]
               [[1; 1]%nat], log')
       /\ ~ In Inf vk.
Proof.
  assert (forall j i,
            score_defined
              (outcome curve_fit_unit [expvar; sphvar; gauvar]
                 [[3 / 4; 9 / 4]] [[1 / 2; 2]] [1 / 2; 1 / 2; 100] j i))
    as Hdef.
  { intros j i. unfold outcome, curve_fit_unit.
    cbn [score_defined length diag_from nth].
    split; [reflexivity|]. split; [reflexivity|].
    split; [intros row [<-|[<-|[<-|[]]]]; reflexivity|].
    split; intros a [<-|[<-|[<-|[]]]]; lra. }
  split; [intros; reflexivity|]. split; [intros; apply Hdef|].
  apply (failed_model_not_chosen curve_fit_unit [expvar; sphvar; gauvar]
           [exprange; sphrange; gaurange] [[3 / 4; 9 / 4]] [[1 / 2; 2]]
           [[1; 1]%nat] [0] [1 / 2; 1 / 2; 100] [] 0);
    [intros; reflexivity | intros; apply Hdef | simpl; lia |].
  intros i _. unfold outcome, curve_fit_unit. eauto.
Defined.

Lemma argmin_from_keeps (best : nat) (bv : score) (k : nat) (l : list score) :
  (forall a, In a l -> score_ltb a bv = false) ->
  argmin_from best bv k l = best.
Proof.
  revert k; induction l as [|a l IH]; intros k H; cbn [argmin_from];
    [reflexivity|].
  rewrite H by (now left). apply IH. intros; apply H; now right.
Qed.

(** X23.  When no model has a mean score below the one of the first model
    (all equal, or every fit failed and all are infinite), the first model
    of the list is chosen and the fitting part returns its results. *)
Theorem ties_choose_first_model (curve_fit : curve_fit_t)
    (func range_ : list (R -> R -> R -> R -> R)) (h g : list (list R))
    (c : list (list nat)) (di p0 : list R) (log : list diag) :
  (forall j i, (j < length func)%nat -> (i < length di)%nat ->
     recoverable (outcome curve_fit func h g p0 j i) = true) ->
  (0 < length func)%nat ->
  (forall j, (j < length func)%nat ->
     score_ltb
       (model_mean_score (outcome curve_fit func h g p0) (length di) j)
       (model_mean_score (outcome curve_fit func h g p0) (length di) 0)
     = false) ->
  fit_and_select curve_fit func range_ h g c di p0 log
  = Ok (Fitted
          (map (fun i => nugget_of
                           (fitted_params (outcome curve_fit func h g p0)
                              0 i))
             (seq 0 (length di)))
          (map (fun i => sill_of
                           (fitted_params (outcome curve_fit func h g p0)
                              0 i))
             (seq 0 (length di)))
          (map (fun i => range_of (nth 0 range_ sphrange)
                           (fitted_params (outcome curve_fit func h g p0)
                              0 i))
             (seq 0 (length di)))
          (map (fun i => vark_cell (outcome curve_fit func h g p0 0 i))
             (seq 0 (length di)))
          (map (fun i => cell_value (CovScalar (Fin 0))
                           (pcov_cell (outcome curve_fit func h g p0 0 i)))
             (seq 0 (length di)))
          h g c,
        log ++ fitted_log di (outcome curve_fit func h g p0) (length func)
                 (length di)).
Proof.
  intros Hrec Hnf Htie. rewrite fit_and_select_spec by assumption.
  set (F := outcome curve_fit func h g p0) in *.
  assert (argmin (map mean_score
                    (fitted_vark F (length func) (length di))) = 0%nat) as E.
  { unfold fitted_vark. rewrite map_map.
    destruct (length func) as [|m] eqn:Em; [lia|].
    cbn [seq map argmin]. apply argmin_from_keeps.
    intros a Ha. apply in_map_iff in Ha as (j & <- & Hj).
    apply in_seq in Hj. apply (Htie j). lia. }
  rewrite E.
  destruct (nuggets_fitted F (length func) (length di) 0 Hnf)
    as (Hn & Hs & Hr).
  rewrite Hn, Hs, Hr. unfold fitted_vark, fitted_pcov.
  rewrite !nth_map_seq by assumption. reflexivity.
Qed.

(** The theorem for the three models and a [curve_fit] that returns no
    covariance matrix: all scores are infinite. *)
Lemma ties_choose_first_model_witness :
  (forall j i, (j < length [expvar; sphvar; gauvar])%nat ->
     (i < length [0])%nat ->
     recoverable
       (outcome curve_fit_no_cov [expvar; sphvar; gauvar] [[3 / 4; 9 / 4]]
          [[1 / 2; 2]] [1 / 2; 1 / 2; 100] j i) = true)
  /\ (0 < length [expvar; sphvar; gauvar])%nat
  /\ exists pc log',
       fit_and_select curve_fit_no_cov [expvar; sphvar; gauvar]
         [exprange; sphrange; gaurange] [[3 / 4; 9 / 4]] [[1 / 2; 2]]
         [[1; 1]%nat] [0] [1 / 2; 1 / 2; 100] []
       = Ok (Fitted [1] [1 + 1]
               [exprange (1 + 1) 1 1 1] [Inf] pc
               [[3 / 4; 9 / 4]] [[1 / 2; 2]] [[1; 1]%nat], log').
Proof.
  split; [intros; reflexivity|]. split; [simpl; lia|].
  do 2 eexists.
  rewrite (ties_choose_first_model curve_fit_no_cov
             [expvar; sphvar; gauvar] [exprange; sphrange; gaurange]
             [[3 / 4; 9 / 4]] [[1 / 2; 2]] [[1; 1]%nat] [0]
             [1 / 2; 1 / 2; 100] []);
    [reflexivity | intros; reflexivity | simpl; lia | intros; reflexivity].
Defined.

(** ** Bounds on the counts *)

Lemma mult_le (type : string) (di td tk : R) :
  (mult type di td tk <= 2)%nat
  /\ (mult "directional+orientational" di td tk <= 1)%nat.
Proof.
  unfold mult, b2n. cbn [String.eqb Ascii.eqb Bool.eqb].
  repeat match goal with
         | |- context [if ?b then _ else _] => destruct b
         end; simpl; lia.
Qed.

Lemma wcount_le (fr ft : nat * nat -> R) (L : R) (type : string)
    (di td : R) (s : nat) (ps : list (nat * nat)) :
  (wcount fr ft L type di td s ps
   <= 2 * wcount fr ft L "omnidirectional" 0 0 s ps)%nat
  /\ (wcount fr ft L "directional+orientational" di td s ps
      <= wcount fr ft L "omnidirectional" 0 0 s ps)%nat.
Proof.
  induction ps as [|op ps [IH1 IH2]]; [unfold wcount; simpl; lia|].
  rewrite !wcount_cons. unfold weight at 1 2 3 4.
  destruct (mult_le type di td (ft op)) as [H1 _].
  destruct (mult_le type di td (ft op)) as [_ H2].
  destruct (in_lag L s (fr op)); [|lia].
  change (mult "omnidirectional" 0 0 (ft op)) with 1%nat. lia.
Qed.

Lemma nsum_map_le {A : Type} (a b : A -> nat) (l : list A) :
  (forall u, a u <= b u)%nat -> (nsum (map a l) <= nsum (map b l))%nat.
Proof.
  intros H. induction l as [|u l IH]; [simpl; lia|].
  cbn [map]. rewrite !nsum_cons. specialize (H u). lia.
Qed.

Lemma nsum_map_double {A : Type} (a : A -> nat) (l : list A) :
  nsum (map (fun u => (2 * a u)%nat) l) = (2 * nsum (map a l))%nat.
Proof.
  induction l as [|u l IH]; [reflexivity|].
  cbn [map]. rewrite !nsum_cons, IH. lia.
Qed.

(** X24.  For at least two points and at least one lag, the counts of a
    series of the type directional+orientational add up to at most
    [n(n-1)/2], the number of the pairs (a pair is counted in one lag at
    most), and those of a series of any type to at most twice that. *)
Theorem total_count_bounds (x y v : list R) (nL : nat) (di td : R)
    (type : string) :
  (2 <= length x)%nat -> (1 <= nL)%nat ->
  exists r t xr,
    distang x y = Ok (r, t, xr, length x)
    /\ (nsum (snd (semivario r (remap_angles t) xr (length x) v nL di td
                     "directional+orientational"))
        <= length x * (length x - 1) / 2)%nat
    /\ (nsum (snd (semivario r (remap_angles t) xr (length x) v nL di td
                     type))
        <= 2 * (length x * (length x - 1) / 2))%nat.
Proof.
  intros Hn HnL. destruct (distang_driver x y Hn) as (xr & Hd & Hr & Hin & _).
  exists (map (dist x y) (pairs (length x))),
         (map (angle x y) (pairs (length x))), xr.
  split; [exact Hd|]. rewrite Hr, !total_count.
  pose proof (omni_total_count x y xr nL HnL Hin) as Hom.
  unfold nonempty_lags in Hom. rewrite nsum_filter_nonzero in Hom.
  rewrite <- length_pairs.
  assert (forall s,
            wcount (dist x y) (angle x y) (xr / INR nL) "omnidirectional"
              0 0 s (pairs (length x))
            = lag_count x y (xr / INR nL) s) as Hc
    by (intros s; apply wcount_omni, dist_nonneg).
  rewrite <- (map_ext _ _ Hc) in Hom. split.
  - etransitivity; [|etransitivity; [exact Hom | lia]]. apply nsum_map_le.
    intros s. apply (proj2 (wcount_le _ _ _ type di td s _)).
  - etransitivity;
      [apply nsum_map_le; intros s;
       apply (proj1 (wcount_le _ _ _ type di td s _))|].
    rewrite nsum_map_double. lia.
Qed.

(** The theorem on the points (0,0), (1,0), (3,0) with two lags. *)
Lemma total_count_bounds_witness :
  (2 <= length [0; 1; 3])%nat /\ (1 <= 2)%nat
  /\ exists r t xr,
       distang [0; 1; 3] [0; 0; 0] = Ok (r, t, xr, length [0; 1; 3])
       /\ le (nsum (snd (semivario r (remap_angles t) xr (length [0; 1; 3])
                           [0; 1; 3] 2 90 180 "directional+orientational")))
            (Nat.div (Nat.mul 3 2) 2).
Proof.
  split; [simpl; lia|]. split; [lia|].
  destruct (total_count_bounds [0; 1; 3] [0; 0; 0] [0; 1; 3] 2 90 180
              "directional") as (r & t & xr & Hd & H1 & _);
    [simpl; lia | lia |].
  exists r, t, xr. split; assumption.
Defined.

(** ** When the driver returns *)

(** X25.  Arrays of one length with at least two points, a tolerance of at
    most 180, one of the three types (without negative directions for the
    type directional) and the model 'nomodel': the driver returns three
    lists of arrays, one series for each direction, and exactly one for
    the omnidirectional type. *)
Theorem nomodel_returns (scipy : option curve_fit_t) (x y v : list R)
    (nL : nat) (di : list R) (td : R) (type : string) (p0 : list R) :
  (2 <= length x)%nat -> length x = length y -> length y = length v ->
  (type = "directional"%string -> forall d, In d di -> 0 <= d) ->
  td <= 180 ->
  type = "omnidirectional"%string \/ type = "directional"%string
  \/ type = "directional+orientational"%string ->
  exists h g c,
    semivariogram scipy x y v nL di td type "nomodel" p0
    = Ok (Series h g c,
          match scipy with Some _ => [] | None => [NoCurveFitWarning] end)
    /\ length h = length g /\ length g = length c
    /\ length c
       = if String.eqb type "omnidirectional" then 1%nat else length di.
Proof.
  intros Hn E1 E2 Hdir Htd Ht.
  destruct (distang_ok x y Hn) as (xr & Hd & _).
  assert (validate x y v di td type = Ok tt) as Hv
    by (apply validate_ok_iff; auto).
  assert (exists di', directions type di td
                      = Ok (di', if String.eqb type "omnidirectional"
                                 then 180 else td)
                      /\ length di'
                         = if String.eqb type "omnidirectional"
                           then 1%nat else length di) as (di' & Hdi & Hlen).
  { destruct Ht as [H|[H|H]]; subst type; unfold directions; cbn;
      eexists; split; reflexivity. }
  do 3 eexists.
  split; [apply (semivariogram_nomodel scipy _ _ _ _ _ _ _ _ _ _ _ _ _ _
                   Hv Hd Hdi)|].
  rewrite !length_map. auto.
Qed.

(** The theorem on the points (0,0), (1,0), (3,0) with two directions. *)
Lemma nomodel_returns_witness :
  (2 <= length [0; 1; 3])%nat /\ length [0; 1; 3] = length [0; 0; 0]
  /\ length [0; 0; 0] = length [0; 1; 3] /\ 45 <= 180
  /\ exists h g c,
       semivariogram None [0; 1; 3] [0; 0; 0] [0; 1; 3] 2 [0; 90] 45
         "directional" "nomodel" []
       = Ok (Series h g c, [NoCurveFitWarning])
       /\ length h = length g /\ length g = length c
       /\ length c = 2%nat.
Proof.
  split; [simpl; lia|]. split; [reflexivity|]. split; [reflexivity|].
  split; [lra|].
  apply (nomodel_returns None [0; 1; 3] [0; 0; 0] [0; 1; 3] 2 [0; 90] 45
           "directional" []);
    [simpl; lia | reflexivity | reflexivity | | lra | right; now left].
  intros _ d [<-|[<-|[]]]; lra.
Defined.
